(** * cppcheckdata: the dump reader and its identifier resolver

    A shallow embedding of [addons/cppcheckdata.py].

    Conventions of the embedding.
    - An XML element is a tag, a dictionary of attributes and its children;
      [element.get(k)] is a lookup in the attribute dictionary.
    - A Python attribute that may hold a string, an integer or [None] is a
      [PyVal]; an attribute that only ever holds a string or [None] is an
      [option string].
    - Python objects are mutable and are shared by reference.  The records of
      one configuration live in the lists of that configuration, so a
      reference to a record is the kind of the record and its position in the
      list that owns it ([Ref]).  Rewriting a record in place is rewriting the
      list cell; every holder of the reference sees the change.
    - A raised exception is the [Raise] outcome of [result].  [InvalidRef] is
      not an exception of Python: it is the outcome of following a position
      that lies outside its list, which no reference of the program does.
    - The document is given as the events that [ElementTree.iterparse]
      delivers for it. *)

From Stdlib Require Import ZArith Ascii String.
From stdpp Require Import gmap strings list fin_maps.

Open Scope string_scope.
Open Scope list_scope.
Open Scope Z_scope.
Open Scope nat_scope.

(** ** Python values, exceptions *)

Inductive PyVal :=
  | PyNone
  | PyStr (s : string)
  | PyInt (z : Z)
  | PyBool (b : bool).

Definition is_numeric (v : PyVal) : bool :=
  match v with PyInt _ => true | _ => false end.

Inductive exn :=
  | KeyError
  | TypeError
  | ValueError
  | AttributeError
  | IndexError
  | RecursionError
  | InvalidRef.

Inductive result (A : Type) :=
  | Ok (a : A)
  | Raise (e : exn).
Arguments Ok {A} a.
Arguments Raise {A} e.

#[global] Instance result_ret : MRet result := λ A a, Ok a.
#[global] Instance result_bind : MBind result := λ A B k m,
  match m with
  | Ok a => k a
  | Raise e => Raise e
  end.

#[global] Instance result_fmap : FMap result := λ A B f m,
  match m with
  | Ok a => Ok (f a)
  | Raise e => Raise e
  end.

(** [for x in l: f(x)] where [f] rewrites [x] in place and may raise. *)
Fixpoint for_each {A B} (f : A → result B) (l : list A) : result (list B) :=
  match l with
  | [] => Ok []
  | x :: r => y ← f x; ys ← for_each f r; Ok (y :: ys)
  end.

(** Truth value of [element.get(k)]: [None] and the empty string are false. *)
Definition truthy (o : option string) : bool :=
  match o with
  | None => false
  | Some s => negb (String.eqb s "")
  end.

(** ** [int(s)] on ASCII text

    Surrounding white space is stripped, one sign is allowed, and single
    underscores may separate digits.  Decimal digits and spaces outside ASCII
    are not modelled. *)

Definition is_space (c : ascii) : bool :=
  let n := nat_of_ascii c in
  ((9 <=? n) && (n <=? 13)) || ((28 <=? n) && (n <=? 32)).

Definition digit_of (c : ascii) : option Z :=
  let n := nat_of_ascii c in
  if (48 <=? n) && (n <=? 57) then Some (Z.of_nat (n - 48)) else None.

Fixpoint lstrip (s : string) : string :=
  match s with
  | String c r => if is_space c then lstrip r else s
  | EmptyString => s
  end.

Fixpoint rstrip (s : string) : string :=
  match s with
  | String c r =>
      match rstrip r with
      | EmptyString => if is_space c then EmptyString else String c EmptyString
      | r' => String c r'
      end
  | EmptyString => EmptyString
  end.

Fixpoint digits (acc : Z) (after_digit : bool) (s : string) : option Z :=
  match s with
  | EmptyString => if after_digit then Some acc else None
  | String c r =>
      match digit_of c with
      | Some d => digits (10 * acc + d)%Z true r
      | None =>
          if Ascii.eqb c "_" && after_digit then digits acc false r else None
      end
  end.

Definition parse_int (s : string) : option Z :=
  match lstrip (rstrip s) with
  | String "+" r => digits 0 false r
  | String "-" r => Z.opp <$> digits 0 false r
  | t => digits 0 false t
  end.

(** [int(x)] for [x = element.get(k)]: [int(None)] is a [TypeError]. *)
Definition int (o : option string) : result Z :=
  match o with
  | None => Raise TypeError
  | Some s =>
      match parse_int s with
      | Some z => Ok z
      | None => Raise ValueError
      end
  end.

(** [x = element.get(k); if x: x = int(x)] *)
Definition int_if_set (o : option string) : result PyVal :=
  match o with
  | None => Ok PyNone
  | Some s => if truthy o then z ← int o; Ok (PyInt z) else Ok (PyStr s)
  end.

(** [x = element.get(k)] kept as it is. *)
Definition of_attr (o : option string) : PyVal :=
  match o with
  | None => PyNone
  | Some s => PyStr s
  end.

(** [x = element.get(k); x and x == 'true'] *)
Definition and_is_true (o : option string) : PyVal :=
  match o with
  | None => PyNone
  | Some s => if truthy o then PyBool (String.eqb s "true") else PyStr s
  end.

(** [element.get(k) == v] *)
Definition attr_is (o : option string) (v : string) : bool :=
  bool_decide (o = Some v).

(** ** XML elements *)

#[warnings="-register-all"]
Inductive Element := mkElement {
  tag : string;
  attrib : gmap string string;
  children : list Element
}.

Definition get (element : Element) (k : string) : option string :=
  attrib element !! k.

(** [node.find(t)]: the first child with tag [t]. *)
Definition find (node : Element) (t : string) : option Element :=
  List.find (λ c, String.eqb (tag c) t) (children node).

(** ** References between records *)

Inductive Ref :=
  | RefToken (i : nat)
  | RefScope (i : nat)
  | RefFunction (i : nat)
  | RefVariable (i : nat)
  | RefArgument (i : nat)
  | RefValues (i : nat).

(** The lookup table of one configuration.  Its keys are identifier strings
    and [None]; a value is a reference or [None]. *)
Abbreviation IdMapT := (gmap (option string) (option Ref)).

(** A relational attribute of a record, as a pair: the identifier string read
    from the element, and what the record holds as the reference for it
    ([None] while a dictionary has no entry for it yet). *)
Abbreviation Relation := (option string * option (option Ref))%type.

(** Every identifier is in the table and the record holds what the table has
    for it. *)
Definition resolved (IdMap : IdMapT) (rels : list Relation) : Prop :=
  Forall (λ kv, is_Some kv.2 ∧ IdMap !! kv.1 = kv.2) rels.

(** [IdMap[k]] *)
Definition getitem (IdMap : IdMapT) (k : option string) : result (option Ref) :=
  match IdMap !! k with
  | Some r => Ok r
  | None => Raise KeyError
  end.

(** ** Directive *)

Module Directive.
Record t := mk {
  str : option string;
  file : option string;
  linenr : Z;
  column : Z
}.

Definition __init__ (element : Element) : result t :=
  n ← int (get element "linenr");
  Ok {| str := get element "str";
        file := get element "file";
        linenr := n;
        column := 0 |}.
End Directive.

(** ** ValueType *)

Module ValueType.
Record t := mk {
  type : option string;
  sign : option string;
  bits : Z;
  constness : Z;
  pointer : Z;
  typeScopeId : option string;
  typeScope : option Ref;
  originalTypeName : option string
}.

Definition int_or_0 (o : option string) : result Z :=
  if truthy o then int o else Ok 0%Z.

Definition __init__ (element : Element) : result t :=
  b ← int_or_0 (get element "valueType-bits");
  c ← int_or_0 (get element "valueType-constness");
  p ← int_or_0 (get element "valueType-pointer");
  Ok {| type := get element "valueType-type";
        sign := get element "valueType-sign";
        bits := b;
        constness := c;
        pointer := p;
        typeScopeId := get element "valueType-typeScope";
        typeScope := None;
        originalTypeName := get element "valueType-originalTypeName" |}.

Definition setId (IdMap : IdMapT) (self : t) : result t :=
  r ← getitem IdMap (typeScopeId self);
  Ok {| type := type self; sign := sign self; bits := bits self;
        constness := constness self; pointer := pointer self;
        typeScopeId := typeScopeId self;
        typeScope := r;
        originalTypeName := originalTypeName self |}.

Definition relations (self : t) : list Relation :=
  [(typeScopeId self, Some (typeScope self))].
End ValueType.

(** ** Token *)

Module Token.
Record t := mk {
  Id : option string;
  str : option string;
  next : option nat;
  previous : option nat;
  linkId : option string;
  link : option Ref;
  scopeId : option string;
  scope : option Ref;
  isName : bool;
  isNumber : bool;
  isInt : bool;
  isFloat : bool;
  isString : bool;
  strlen : option Z;
  isChar : bool;
  isOp : bool;
  isArithmeticalOp : bool;
  isAssignmentOp : bool;
  isComparisonOp : bool;
  isLogicalOp : bool;
  isUnsigned : bool;
  isSigned : bool;
  isExpandedMacro : bool;
  varId : option Z;
  variableId : option string;
  variable : option Ref;
  functionId : option string;
  function : option Ref;
  valuesId : option string;
  values : option Ref;
  valueType : option ValueType.t;
  typeScopeId : option string;
  typeScope : option Ref;
  astParentId : option string;
  astParent : option Ref;
  astOperand1Id : option string;
  astOperand1 : option Ref;
  astOperand2Id : option string;
  astOperand2 : option Ref;
  file : option string;
  linenr : Z;
  column : Z
}.

(** The [if]/[elif] chain on [type] compares one value with distinct
    constants, so each branch is the test of its own constant. *)
Definition __init__ (element : Element) : result t :=
  let type := get element "type" in
  let type_is ty := bool_decide (type = Some ty) in
  let flag k := truthy (get element k) in
  len ← (if type_is "string" then Some <$> int (get element "strlen")
         else Ok None);
  vid ← (if flag "varId" then Some <$> int (get element "varId") else Ok None);
  vt ← (if flag "valueType-type" then Some <$> ValueType.__init__ element
        else Ok None);
  ln ← int (get element "linenr");
  col ← int (get element "column");
  Ok {| Id := get element "id";
        str := get element "str";
        next := None;
        previous := None;
        linkId := get element "link";
        link := None;
        scopeId := get element "scope";
        scope := None;
        isName := type_is "name";
        isNumber := type_is "number";
        isInt := type_is "number" && flag "isInt";
        isFloat := type_is "number" && negb (flag "isInt") && flag "isFloat";
        isString := type_is "string";
        strlen := len;
        isChar := type_is "char";
        isOp := type_is "op";
        isArithmeticalOp := type_is "op" && flag "isArithmeticalOp";
        isAssignmentOp := type_is "op" && negb (flag "isArithmeticalOp")
                          && flag "isAssignmentOp";
        isComparisonOp := type_is "op" && negb (flag "isArithmeticalOp")
                          && negb (flag "isAssignmentOp")
                          && flag "isComparisonOp";
        isLogicalOp := type_is "op" && negb (flag "isArithmeticalOp")
                       && negb (flag "isAssignmentOp")
                       && negb (flag "isComparisonOp")
                       && flag "isLogicalOp";
        isUnsigned := type_is "name" && flag "isUnsigned";
        isSigned := type_is "name" && flag "isSigned";
        isExpandedMacro := flag "isExpandedMacro";
        varId := vid;
        variableId := get element "variable";
        variable := None;
        functionId := get element "function";
        function := None;
        valuesId := get element "values";
        values := None;
        valueType := vt;
        typeScopeId := get element "type-scope";
        typeScope := None;
        astParentId := get element "astParent";
        astParent := None;
        astOperand1Id := get element "astOperand1";
        astOperand1 := None;
        astOperand2Id := get element "astOperand2";
        astOperand2 := None;
        file := get element "file";
        linenr := ln;
        column := col |}.

(** Assignments to single attributes. *)
Definition set_previous (v : option nat) (self : t) : t :=
  mk (Id self) (str self) (next self) v (linkId self) (link self)
     (scopeId self) (scope self) (isName self) (isNumber self) (isInt self)
     (isFloat self) (isString self) (strlen self) (isChar self) (isOp self)
     (isArithmeticalOp self) (isAssignmentOp self) (isComparisonOp self)
     (isLogicalOp self) (isUnsigned self) (isSigned self)
     (isExpandedMacro self) (varId self) (variableId self) (variable self)
     (functionId self) (function self) (valuesId self) (values self)
     (valueType self) (typeScopeId self) (typeScope self) (astParentId self)
     (astParent self) (astOperand1Id self) (astOperand1 self)
     (astOperand2Id self) (astOperand2 self) (file self) (linenr self)
     (column self).

Definition set_next (v : option nat) (self : t) : t :=
  mk (Id self) (str self) v (previous self) (linkId self) (link self)
     (scopeId self) (scope self) (isName self) (isNumber self) (isInt self)
     (isFloat self) (isString self) (strlen self) (isChar self) (isOp self)
     (isArithmeticalOp self) (isAssignmentOp self) (isComparisonOp self)
     (isLogicalOp self) (isUnsigned self) (isSigned self)
     (isExpandedMacro self) (varId self) (variableId self) (variable self)
     (functionId self) (function self) (valuesId self) (values self)
     (valueType self) (typeScopeId self) (typeScope self) (astParentId self)
     (astParent self) (astOperand1Id self) (astOperand1 self)
     (astOperand2Id self) (astOperand2 self) (file self) (linenr self)
     (column self).

Definition set_file (v : option string) (self : t) : t :=
  mk (Id self) (str self) (next self) (previous self) (linkId self)
     (link self) (scopeId self) (scope self) (isName self) (isNumber self)
     (isInt self) (isFloat self) (isString self) (strlen self) (isChar self)
     (isOp self) (isArithmeticalOp self) (isAssignmentOp self)
     (isComparisonOp self) (isLogicalOp self) (isUnsigned self)
     (isSigned self) (isExpandedMacro self) (varId self) (variableId self)
     (variable self) (functionId self) (function self) (valuesId self)
     (values self) (valueType self) (typeScopeId self) (typeScope self)
     (astParentId self) (astParent self) (astOperand1Id self)
     (astOperand1 self) (astOperand2Id self) (astOperand2 self) v
     (linenr self) (column self).

Definition setId (IdMap : IdMapT) (self : t) : result t :=
  r_scope ← getitem IdMap (scopeId self);
  r_link ← getitem IdMap (linkId self);
  r_variable ← getitem IdMap (variableId self);
  r_function ← getitem IdMap (functionId self);
  r_values ← getitem IdMap (valuesId self);
  r_typeScope ← getitem IdMap (typeScopeId self);
  r_astParent ← getitem IdMap (astParentId self);
  r_astOperand1 ← getitem IdMap (astOperand1Id self);
  r_astOperand2 ← getitem IdMap (astOperand2Id self);
  vt ← match valueType self with
       | Some vt => Some <$> ValueType.setId IdMap vt
       | None => Ok None
       end;
  Ok (mk (Id self) (str self) (next self) (previous self) (linkId self)
         r_link (scopeId self) r_scope (isName self) (isNumber self)
         (isInt self) (isFloat self) (isString self) (strlen self)
         (isChar self) (isOp self) (isArithmeticalOp self)
         (isAssignmentOp self) (isComparisonOp self) (isLogicalOp self)
         (isUnsigned self) (isSigned self) (isExpandedMacro self)
         (varId self) (variableId self) r_variable (functionId self)
         r_function (valuesId self) r_values vt (typeScopeId self)
         r_typeScope (astParentId self) r_astParent (astOperand1Id self)
         r_astOperand1 (astOperand2Id self) r_astOperand2 (file self)
         (linenr self) (column self)).

Definition relations (self : t) : list Relation :=
  [(scopeId self, Some (scope self));
   (linkId self, Some (link self));
   (variableId self, Some (variable self));
   (functionId self, Some (function self));
   (valuesId self, Some (values self));
   (typeScopeId self, Some (typeScope self));
   (astParentId self, Some (astParent self));
   (astOperand1Id self, Some (astOperand1 self));
   (astOperand2Id self, Some (astOperand2 self))]
  ++ from_option ValueType.relations [] (valueType self).
End Token.

(** ** Scope *)

Module Scope.
Record t := mk {
  Id : option string;
  bodyStartId : option string;
  bodyStart : option Ref;
  bodyEndId : option string;
  bodyEnd : option Ref;
  className : option string;
  functionId : option string;
  function : option Ref;
  nestedInId : option string;
  nestedIn : option Ref;
  type : option string;
  isExecutable : bool
}.

Definition executable_types : list string :=
  ["Function"; "If"; "Else"; "For"; "While"; "Do"; "Switch"; "Try"; "Catch";
   "Unconditional"; "Lambda"].

Definition __init__ (element : Element) : t :=
  let type := get element "type" in
  {| Id := get element "id";
     bodyStartId := get element "bodyStart";
     bodyStart := None;
     bodyEndId := get element "bodyEnd";
     bodyEnd := None;
     className := get element "className";
     functionId := get element "function";
     function := None;
     nestedInId := get element "nestedIn";
     nestedIn := None;
     type := type;
     isExecutable := existsb (attr_is type) executable_types |}.

Definition setId (IdMap : IdMapT) (self : t) : result t :=
  r_bodyStart ← getitem IdMap (bodyStartId self);
  r_bodyEnd ← getitem IdMap (bodyEndId self);
  r_nestedIn ← getitem IdMap (nestedInId self);
  r_function ← getitem IdMap (functionId self);
  Ok {| Id := Id self;
        bodyStartId := bodyStartId self;
        bodyStart := r_bodyStart;
        bodyEndId := bodyEndId self;
        bodyEnd := r_bodyEnd;
        className := className self;
        functionId := functionId self;
        function := r_function;
        nestedInId := nestedInId self;
        nestedIn := r_nestedIn;
        type := type self;
        isExecutable := isExecutable self |}.

Definition relations (self : t) : list Relation :=
  [(bodyStartId self, Some (bodyStart self));
   (bodyEndId self, Some (bodyEnd self));
   (nestedInId self, Some (nestedIn self));
   (functionId self, Some (function self))].
End Scope.

(** ** Function

    [argument] and [argumentId] are dictionaries keyed by the argument
    number.  [items()] enumerates a dictionary in an order the code does not
    depend on; it is the enumeration of the finite map. *)

Module Function_.
Record t := mk {
  Id : option string;
  argument : gmap Z (option Ref);
  argumentId : gmap Z (option string);
  tokenDef : option Ref;
  tokenDefId : option string;
  name : option string;
  type : option string;
  isVirtual : PyVal;
  isImplicitlyVirtual : PyVal;
  isStatic : PyVal
}.

Definition __init__ (element : Element) : t :=
  {| Id := get element "id";
     argument := ∅;
     argumentId := ∅;
     tokenDef := None;
     tokenDefId := get element "tokenDef";
     name := get element "name";
     type := get element "type";
     isVirtual := and_is_true (get element "isVirtual");
     isImplicitlyVirtual := and_is_true (get element "isImplicitlyVirtual");
     isStatic := and_is_true (get element "isStatic") |}.

(** [self.argumentId[arg_nr] = arg_variable_id] *)
Definition set_argumentId (nr : Z) (v : option string) (self : t) : t :=
  {| Id := Id self;
     argument := argument self;
     argumentId := <[nr := v]> (argumentId self);
     tokenDef := tokenDef self;
     tokenDefId := tokenDefId self;
     name := name self;
     type := type self;
     isVirtual := isVirtual self;
     isImplicitlyVirtual := isImplicitlyVirtual self;
     isStatic := isStatic self |}.

(** [for argnr, argid in items: argument[argnr] = IdMap[argid]] *)
Fixpoint assign_items (IdMap : IdMapT) (items : list (Z * option string))
    (argument : gmap Z (option Ref)) : result (gmap Z (option Ref)) :=
  match items with
  | [] => Ok argument
  | (argnr, argid) :: rest =>
      r ← getitem IdMap argid;
      assign_items IdMap rest (<[argnr := r]> argument)
  end.

Definition setId (IdMap : IdMapT) (self : t) : result t :=
  a ← assign_items IdMap (map_to_list (argumentId self)) (argument self);
  r_tokenDef ← getitem IdMap (tokenDefId self);
  Ok {| Id := Id self;
        argument := a;
        argumentId := argumentId self;
        tokenDef := r_tokenDef;
        tokenDefId := tokenDefId self;
        name := name self;
        type := type self;
        isVirtual := isVirtual self;
        isImplicitlyVirtual := isImplicitlyVirtual self;
        isStatic := isStatic self |}.

Definition relations (self : t) : list Relation :=
  (tokenDefId self, Some (tokenDef self))
  :: ((λ x, (x.2, argument self !! x.1)) <$> map_to_list (argumentId self)).
End Function_.

(** ** Variable *)

Module Variable_.
Record t := mk {
  Id : option string;
  nameTokenId : option string;
  nameToken : option Ref;
  typeStartTokenId : option string;
  typeStartToken : option Ref;
  typeEndTokenId : option string;
  typeEndToken : option Ref;
  access : option string;
  scopeId : option string;
  scope : option Ref;
  isArgument : bool;
  isArray : bool;
  isClass : bool;
  isConst : bool;
  isExtern : bool;
  isGlobal : bool;
  isLocal : bool;
  isPointer : bool;
  isReference : bool;
  isStatic : bool;
  constness : PyVal
}.

Definition __init__ (element : Element) : result t :=
  c ← int_if_set (get element "constness");
  Ok {| Id := get element "id";
        nameTokenId := get element "nameToken";
        nameToken := None;
        typeStartTokenId := get element "typeStartToken";
        typeStartToken := None;
        typeEndTokenId := get element "typeEndToken";
        typeEndToken := None;
        access := get element "access";
        scopeId := get element "scope";
        scope := None;
        isArgument := attr_is (get element "isArgument") "true";
        isArray := attr_is (get element "isArray") "true";
        isClass := attr_is (get element "isClass") "true";
        isConst := attr_is (get element "isConst") "true";
        isExtern := attr_is (get element "isExtern") "true";
        isGlobal := attr_is (get element "access") "Global";
        isLocal := attr_is (get element "isLocal") "true";
        isPointer := attr_is (get element "isPointer") "true";
        isReference := attr_is (get element "isReference") "true";
        isStatic := attr_is (get element "isStatic") "true";
        constness := c |}.

Definition setId (IdMap : IdMapT) (self : t) : result t :=
  r_nameToken ← getitem IdMap (nameTokenId self);
  r_typeStartToken ← getitem IdMap (typeStartTokenId self);
  r_typeEndToken ← getitem IdMap (typeEndTokenId self);
  r_scope ← getitem IdMap (scopeId self);
  Ok {| Id := Id self;
        nameTokenId := nameTokenId self;
        nameToken := r_nameToken;
        typeStartTokenId := typeStartTokenId self;
        typeStartToken := r_typeStartToken;
        typeEndTokenId := typeEndTokenId self;
        typeEndToken := r_typeEndToken;
        access := access self;
        scopeId := scopeId self;
        scope := r_scope;
        isArgument := isArgument self;
        isArray := isArray self;
        isClass := isClass self;
        isConst := isConst self;
        isExtern := isExtern self;
        isGlobal := isGlobal self;
        isLocal := isLocal self;
        isPointer := isPointer self;
        isReference := isReference self;
        isStatic := isStatic self;
        constness := constness self |}.

Definition relations (self : t) : list Relation :=
  [(nameTokenId self, Some (nameToken self));
   (typeStartTokenId self, Some (typeStartToken self));
   (typeEndTokenId self, Some (typeEndToken self));
   (scopeId self, Some (scope self))].
End Variable_.

(** ** Value, ValueFlow *)

Module Value.
Record t := mk {
  intvalue : PyVal;
  tokvalue : option string;
  floatvalue : PyVal;
  containerSize : PyVal;
  condition : PyVal;
  valueKind : option string;
  inconclusive : bool
}.

Definition __init__ (element : Element) : result t :=
  iv ← int_if_set (get element "intvalue");
  c ← int_if_set (get element "condition-line");
  Ok {| intvalue := iv;
        tokvalue := get element "tokvalue";
        floatvalue := of_attr (get element "floatvalue");
        containerSize := of_attr (get element "container-size");
        condition := c;
        valueKind := if truthy (get element "known") then Some "known"
                     else if truthy (get element "possible") then Some "possible"
                     else None;
        inconclusive := truthy (get element "inconclusive") |}.

(** [self.valueKind and self.valueKind == 'known'], as a truth value. *)
Definition isKnown (self : t) : bool := attr_is (valueKind self) "known".
Definition isPossible (self : t) : bool := attr_is (valueKind self) "possible".
End Value.

Module ValueFlow.
Record t := mk {
  Id : option string;
  values : list Value.t
}.

Definition __init__ (element : Element) : t :=
  {| Id := get element "id"; values := [] |}.

(** [self.values.append(v)] *)
Definition append_value (v : Value.t) (self : t) : t :=
  {| Id := Id self; values := values self ++ [v] |}.
End ValueFlow.

(** ** Suppression, Platform, Standards *)

Module Suppression.
Record t := mk {
  errorId : option string;
  fileName : option string;
  lineNumber : option string;
  symbolName : option string
}.

Definition __init__ (element : Element) : t :=
  {| errorId := get element "errorId";
     fileName := get element "fileName";
     lineNumber := get element "lineNumber";
     symbolName := get element "symbolName" |}.
End Suppression.

Module Platform.
Record t := mk {
  name : option string;
  char_bit : Z;
  short_bit : Z;
  int_bit : Z;
  long_bit : Z;
  long_long_bit : Z;
  pointer_bit : Z
}.

Definition __init__ (platformnode : Element) : result t :=
  c ← int (get platformnode "char_bit");
  s ← int (get platformnode "short_bit");
  i ← int (get platformnode "int_bit");
  l ← int (get platformnode "long_bit");
  ll ← int (get platformnode "long_long_bit");
  p ← int (get platformnode "pointer_bit");
  Ok {| name := get platformnode "name";
        char_bit := c; short_bit := s; int_bit := i; long_bit := l;
        long_long_bit := ll; pointer_bit := p |}.
End Platform.

Module Standards.
Record t := mk {
  c : option string;
  cpp : option string;
  posix : bool
}.

(** [node.find(t).get(k)]: without such a child, [None.get] is an
    [AttributeError]. *)
Definition find_get (node : Element) (t k : string) : result (option string) :=
  match find node t with
  | Some child => Ok (get child k)
  | None => Raise AttributeError
  end.

Definition __init__ (standardsnode : Element) : result t :=
  v_c ← find_get standardsnode "c" "version";
  v_cpp ← find_get standardsnode "cpp" "version";
  Ok {| c := v_c;
        cpp := v_cpp;
        posix := bool_decide (is_Some (find standardsnode "posix")) |}.
End Standards.

(** ** Configuration

    [functions] and [valueflow] hold what the reader appends at the closing
    event of a [function] and of a [values] element: the record under
    construction, or [None] when there is none.  [standards] is the empty
    list until a [standards] element has been read. *)

Module Configuration.
Record t := mk {
  name : option string;
  directives : list Directive.t;
  tokenlist : list Token.t;
  scopes : list Scope.t;
  functions : list (option Function_.t);
  variables : list Variable_.t;
  valueflow : list (option ValueFlow.t);
  standards : option Standards.t
}.

Definition __init__ (name : option string) : t :=
  {| name := name; directives := []; tokenlist := []; scopes := [];
     functions := []; variables := []; valueflow := []; standards := None |}.

(** One round of the loop of [set_tokens_links], at the token in position
    [i]; the state is [prev] and the token list. *)
Definition links_step (st : option nat * list Token.t) (i : nat)
    : option nat * list Token.t :=
  let tl := alter (Token.set_previous st.1) i st.2 in
  let tl := match st.1 with
            | Some p => alter (Token.set_next (Some i)) p tl
            | None => tl
            end in
  (Some i, tl).

Definition link_tokens (tl : list Token.t) : list Token.t :=
  (foldl links_step (None, tl) (seq 0 (length tl))).2.

Definition set_tokenlist (tl : list Token.t) (self : t) : t :=
  {| name := name self; directives := directives self; tokenlist := tl;
     scopes := scopes self; functions := functions self;
     variables := variables self; valueflow := valueflow self;
     standards := standards self |}.

Definition set_tokens_links (self : t) : t :=
  set_tokenlist (link_tokens (tokenlist self)) self.

(** The table the resolver starts from. *)
Definition reserved : list (option string) :=
  [None; Some "0"; Some "00000000"; Some "0000000000000000"].

Definition IdMap0 : IdMapT :=
  list_to_map ((λ k, (k, None)) <$> reserved).

(** [for x in l: IdMap[x.Id] = x], the entries in the order of the loop. *)
Definition entries {A} (Id : A → option string) (ref : nat → Ref)
    (l : list A) : list (option string * option Ref) :=
  imap (λ i x, (Id x, Some (ref i))) l.

Definition update (IdMap : IdMapT) (es : list (option string * option Ref))
    : IdMapT :=
  foldl (λ m e, <[e.1 := e.2]> m) IdMap es.

(** Reading an attribute of each item of a list that may hold [None]. *)
Definition present {A} (l : list (option A)) : result (list A) :=
  for_each (λ o, match o with
                 | Some x => Ok x
                 | None => Raise AttributeError
                 end) l.

(** All entries that the first half of [set_id_map] writes, in order. *)
Definition all_entries (self : t) (arguments : list Variable_.t)
    : result (list (option string * option Ref)) :=
  fs ← present (functions self);
  vfs ← present (valueflow self);
  Ok (entries Token.Id RefToken (tokenlist self)
      ++ entries Scope.Id RefScope (scopes self)
      ++ entries Function_.Id RefFunction fs
      ++ entries Variable_.Id RefVariable (variables self)
      ++ entries Variable_.Id RefArgument arguments
      ++ entries ValueFlow.Id RefValues vfs).

Definition build_IdMap (self : t) (arguments : list Variable_.t)
    : result IdMapT :=
  update IdMap0 <$> all_entries self arguments.

(** [function.setId(IdMap)] for an item of [functions]. *)
Definition setId_item (IdMap : IdMapT) (function : option Function_.t)
    : result (option Function_.t) :=
  match function with
  | Some f => Some <$> Function_.setId IdMap f
  | None => Raise AttributeError
  end.

Definition set_id_map (self : t) (arguments : list Variable_.t)
    : result (t * list Variable_.t) :=
  IdMap ← build_IdMap self arguments;
  tokenlist' ← for_each (Token.setId IdMap) (tokenlist self);
  scopes' ← for_each (Scope.setId IdMap) (scopes self);
  functions' ← for_each (setId_item IdMap) (functions self);
  variables' ← for_each (Variable_.setId IdMap) (variables self);
  arguments' ← for_each (Variable_.setId IdMap) arguments;
  Ok ({| name := name self; directives := directives self;
         tokenlist := tokenlist'; scopes := scopes';
         functions := functions'; variables := variables';
         valueflow := valueflow self; standards := standards self |},
      arguments').

Definition setIdMap (self : t) (functions_arguments : list Variable_.t)
    : result (t * list Variable_.t) :=
  set_id_map (set_tokens_links self) functions_arguments.

(** The relational attributes of all records that [set_id_map] rewrites. *)
Definition all_relations (self : t) (arguments : list Variable_.t)
    : list Relation :=
  (tokenlist self ≫= Token.relations)
  ++ (scopes self ≫= Scope.relations)
  ++ (functions self ≫= from_option Function_.relations [])
  ++ (variables self ≫= Variable_.relations)
  ++ (arguments ≫= Variable_.relations).

(** [self.<list>.append(x)] and [self.standards = x] *)
Definition append_directive (x : Directive.t) (self : t) : t :=
  mk (name self) (directives self ++ [x]) (tokenlist self) (scopes self)
     (functions self) (variables self) (valueflow self) (standards self).
Definition append_token (x : Token.t) (self : t) : t :=
  mk (name self) (directives self) (tokenlist self ++ [x]) (scopes self)
     (functions self) (variables self) (valueflow self) (standards self).
Definition append_scope (x : Scope.t) (self : t) : t :=
  mk (name self) (directives self) (tokenlist self) (scopes self ++ [x])
     (functions self) (variables self) (valueflow self) (standards self).
Definition append_function (x : option Function_.t) (self : t) : t :=
  mk (name self) (directives self) (tokenlist self) (scopes self)
     (functions self ++ [x]) (variables self) (valueflow self)
     (standards self).
Definition append_variable (x : Variable_.t) (self : t) : t :=
  mk (name self) (directives self) (tokenlist self) (scopes self)
     (functions self) (variables self ++ [x]) (valueflow self)
     (standards self).
Definition append_valueflow (x : option ValueFlow.t) (self : t) : t :=
  mk (name self) (directives self) (tokenlist self) (scopes self)
     (functions self) (variables self) (valueflow self ++ [x])
     (standards self).
Definition set_standards (x : Standards.t) (self : t) : t :=
  mk (name self) (directives self) (tokenlist self) (scopes self)
     (functions self) (variables self) (valueflow self) (Some x).
End Configuration.

(** ** The events of [ElementTree.iterparse]

    The reader receives the [start] and [end] events of the document in
    document order.  An event is given with its element as the loop body
    finds it at that event: [node.clear()], which ends a round of the loop of
    [iterconfigurations], empties the element of that round, and what is left
    of an element when a later event hands it over again is part of that
    later event. *)

Inductive Event := ev_start | ev_end.

#[global] Instance Event_eq_dec : EqDecision Event.
Proof. solve_decision. Defined.

Definition is_ev (node : Element) (event : Event) (t : string) (e : Event)
    : bool :=
  String.eqb (tag node) t && bool_decide (event = e).

(** [l[i]] for a Python integer [i]: negative indices count from the end. *)
Definition list_getitem {A} (l : list A) (i : Z) : result A :=
  let n := Z.of_nat (length l) in
  let j := if (i <? 0)%Z then (i + n)%Z else i in
  if (j <? 0)%Z then Raise IndexError
  else match l !! Z.to_nat j with
       | Some x => Ok x
       | None => Raise IndexError
       end.

(** ** CppcheckData

    [rawTokens] and [suppressions] are attributes of the class: [__init__]
    never assigns them, and [self.rawTokens.append] appends to the list of the
    class, which every instance reads.  [Class] is that part of the state of
    the program; it lives from the import of the module on. *)

Module CppcheckData.
Record Class := mkClass {
  rawTokens : list Token.t;
  suppressions : list Suppression.t
}.

(** The class attributes as the class statement leaves them. *)
Definition class_init : Class := {| rawTokens := []; suppressions := [] |}.

Record t := mk {
  filename : string;
  platform : option Platform.t
}.

(** A computation that reads and writes the class attributes and may raise;
    what it appended before it raised stays appended. *)
Definition M (A : Type) : Type := Class → Class * result A.

Definition ret {A} (a : A) : M A := λ c, (c, Ok a).
Definition bind {A B} (m : M A) (k : A → M B) : M B := λ c,
  match m c with
  | (c', Ok a) => k a c'
  | (c', Raise e) => (c', Raise e)
  end.
Definition lift {A} (r : result A) : M A := λ c, (c, r).

Notation "'do' x <- m ; k" := (bind m (λ x, k))
  (at level 10, x name, m at level 100, k at level 200, only parsing).

Definition append_rawToken (tok : Token.t) : M unit := λ c,
  ({| rawTokens := rawTokens c ++ [tok]; suppressions := suppressions c |},
   Ok tt).

Definition append_suppression (x : Suppression.t) : M unit := λ c,
  ({| rawTokens := rawTokens c; suppressions := suppressions c ++ [x] |},
   Ok tt).

(** [for rawtokens_node in node: ...]; the state is [files]. *)
Fixpoint read_rawtokens (nodes : list Element) (files : list (option string))
    : M (list (option string)) :=
  match nodes with
  | [] => ret files
  | rawtokens_node :: rest =>
      if String.eqb (tag rawtokens_node) "file" then
        read_rawtokens rest (files ++ [get rawtokens_node "name"])
      else if String.eqb (tag rawtokens_node) "tok" then
        do tok <- lift (Token.__init__ rawtokens_node);
        do ix <- lift (int (get rawtokens_node "fileIndex"));
        do f <- lift (list_getitem files ix);
        do _ <- append_rawToken (Token.set_file f tok);
        read_rawtokens rest files
      else read_rawtokens rest files
  end.

Fixpoint read_suppressions (nodes : list Element) : M unit :=
  match nodes with
  | [] => ret tt
  | suppressions_node :: rest =>
      do _ <- append_suppression (Suppression.__init__ suppressions_node);
      read_suppressions rest
  end.

(** The local variables of [__init__] and [self.platform]. *)
Record Locals := mkLocals {
  files : list (option string);
  platform_done : bool;
  rawtokens_done : bool;
  suppressions_done : bool;
  self_platform : option Platform.t
}.

Definition locals_init : Locals :=
  {| files := []; platform_done := false; rawtokens_done := false;
     suppressions_done := false; self_platform := None |}.

Fixpoint scan (events : list (Event * Element)) (l : Locals) : M Locals :=
  match events with
  | [] => ret l
  | (event, node) :: rest =>
      if platform_done l && rawtokens_done l && suppressions_done l then ret l
      else if is_ev node event "platform" ev_start then
        do p <- lift (Platform.__init__ node);
        scan rest (mkLocals (files l) true (rawtokens_done l)
                            (suppressions_done l) (Some p))
      else if is_ev node event "rawtokens" ev_end then
        do fs <- read_rawtokens (children node) (files l);
        scan rest (mkLocals fs (platform_done l) true (suppressions_done l)
                            (self_platform l))
      else if is_ev node event "suppressions" ev_end then
        do _ <- read_suppressions (children node);
        scan rest (mkLocals (files l) (platform_done l) (rawtokens_done l)
                            true (self_platform l))
      else scan rest l
  end.

(** [rawTokens[i+1].previous = rawTokens[i]; rawTokens[i].next = rawTokens[i+1]] *)
Definition link_step (toks : list Token.t) (i : nat) : list Token.t :=
  alter (Token.set_next (Some (i + 1))) i
    (alter (Token.set_previous (Some i)) (i + 1) toks).

Definition link_rawTokens : M unit := λ c,
  ({| rawTokens := foldl link_step (rawTokens c)
                         (seq 0 (length (rawTokens c) - 1));
      suppressions := suppressions c |},
   Ok tt).

Definition __init__ (filename : string) (events : list (Event * Element))
    : M t :=
  do l <- scan events locals_init;
  do _ <- link_rawTokens;
  ret {| filename := filename; platform := self_platform l |}.
End CppcheckData.

(** ** iterconfigurations

    The generator is its loop body, [step], run over the events; a round may
    yield one configuration.  What is yielded is the configuration together
    with the argument variables its references of kind [RefArgument] point
    into. *)

Module Iter.
Record t := mk {
  cfg : option Configuration.t;
  cfg_arguments : list Variable_.t;
  cfg_function : option Function_.t;
  cfg_valueflow : option ValueFlow.t;
  iter_varlist : bool
}.

Definition init : t :=
  {| cfg := None; cfg_arguments := []; cfg_function := None;
     cfg_valueflow := None; iter_varlist := false |}.

Definition Yield : Type := Configuration.t * list Variable_.t.

(** Reading an attribute of [cfg], of [cfg_function], of [cfg_valueflow]:
    an [AttributeError] on [None]. *)
Definition attr_of {A} (o : option A) : result A :=
  match o with
  | Some x => Ok x
  | None => Raise AttributeError
  end.

Definition set_cfg (c : option Configuration.t) (st : t) : t :=
  mk c (cfg_arguments st) (cfg_function st) (cfg_valueflow st)
     (iter_varlist st).
Definition set_cfg_arguments (a : list Variable_.t) (st : t) : t :=
  mk (cfg st) a (cfg_function st) (cfg_valueflow st) (iter_varlist st).
Definition set_cfg_function (f : option Function_.t) (st : t) : t :=
  mk (cfg st) (cfg_arguments st) f (cfg_valueflow st) (iter_varlist st).
Definition set_cfg_valueflow (v : option ValueFlow.t) (st : t) : t :=
  mk (cfg st) (cfg_arguments st) (cfg_function st) v (iter_varlist st).
Definition set_iter_varlist (b : bool) (st : t) : t :=
  mk (cfg st) (cfg_arguments st) (cfg_function st) (cfg_valueflow st) b.

(** The branch of a [var] element. *)
Definition on_var (node : Element) (st : t) : result t :=
  var ← Variable_.__init__ node;
  if truthy (Variable_.nameTokenId var) then
    c ← attr_of (cfg st);
    Ok (set_cfg (Some (Configuration.append_variable var c)) st)
  else if negb (iter_varlist st) then
    Ok (set_cfg_arguments (cfg_arguments st ++ [var]) st)
  else Ok st.

Definition step (st : t) (ev : Event * Element) : result (t * option Yield) :=
  let '(event, node) := ev in
  let at_ := is_ev node event in
  if String.eqb (tag node) "dump" then
    match event with
    | ev_start =>
        Ok (set_cfg (Some (Configuration.__init__ (get node "cfg"))) st, None)
    | ev_end =>
        c ← attr_of (cfg st);
        y ← Configuration.setIdMap c (cfg_arguments st);
        Ok (set_cfg_arguments [] (set_cfg None st), Some y)
    end
  else if at_ "standards" ev_start then Ok (st, None)
  else if at_ "standards" ev_end then
    s ← Standards.__init__ node;
    c ← attr_of (cfg st);
    Ok (set_cfg (Some (Configuration.set_standards s c)) st, None)
  else if at_ "directive" ev_start then
    c ← attr_of (cfg st);
    d ← Directive.__init__ node;
    Ok (set_cfg (Some (Configuration.append_directive d c)) st, None)
  else if at_ "tokenlist" ev_start then Ok (st, None)
  else if at_ "token" ev_start then
    c ← attr_of (cfg st);
    tok ← Token.__init__ node;
    Ok (set_cfg (Some (Configuration.append_token tok c)) st, None)
  else if at_ "scopes" ev_start then Ok (st, None)
  else if at_ "scope" ev_start then
    c ← attr_of (cfg st);
    Ok (set_cfg (Some (Configuration.append_scope (Scope.__init__ node) c)) st,
        None)
  else if String.eqb (tag node) "varlist" then
    match event with
    | ev_start => Ok (set_iter_varlist true st, None)
    | ev_end => Ok (set_iter_varlist false st, None)
    end
  else if at_ "functionList" ev_start then Ok (st, None)
  else if String.eqb (tag node) "function" then
    match event with
    | ev_start => Ok (set_cfg_function (Some (Function_.__init__ node)) st, None)
    | ev_end =>
        c ← attr_of (cfg st);
        Ok (set_cfg_function None
              (set_cfg (Some (Configuration.append_function (cfg_function st) c))
                       st),
            None)
    end
  else if at_ "arg" ev_start then
    arg_nr ← int (get node "nr");
    f ← attr_of (cfg_function st);
    Ok (set_cfg_function
          (Some (Function_.set_argumentId arg_nr (get node "variable") f)) st,
        None)
  else if at_ "var" ev_start then
    st' ← on_var node st; Ok (st', None)
  else if at_ "valueflow" ev_start then Ok (st, None)
  else if String.eqb (tag node) "values" then
    match event with
    | ev_start => Ok (set_cfg_valueflow (Some (ValueFlow.__init__ node)) st, None)
    | ev_end =>
        c ← attr_of (cfg st);
        Ok (set_cfg_valueflow None
              (set_cfg (Some (Configuration.append_valueflow (cfg_valueflow st) c))
                       st),
            None)
    end
  else if at_ "value" ev_start then
    vf ← attr_of (cfg_valueflow st);
    v ← Value.__init__ node;
    Ok (set_cfg_valueflow (Some (ValueFlow.append_value v vf)) st, None)
  else Ok (st, None).

(** The configurations yielded up to the end of the events or up to the
    exception, and the state or the exception the loop ends with. *)
Fixpoint run (st : t) (events : list (Event * Element))
    : list Yield * result t :=
  match events with
  | [] => ([], Ok st)
  | ev :: rest =>
      match step st ev with
      | Raise e => ([], Raise e)
      | Ok (st', y) =>
          let '(ys, r) := run st' rest in (option_list y ++ ys, r)
      end
  end.
End Iter.

Definition iterconfigurations (events : list (Event * Element))
    : list Iter.Yield * result Iter.t :=
  Iter.run Iter.init events.


(** ** getArguments

    The tokens are those of [tokenlist]; a token is named by its position.
    [fuel] bounds the depth of the recursion, as the interpreter does. *)

Definition token_at (tokenlist : list Token.t) (i : nat) : result Token.t :=
  match tokenlist !! i with
  | Some t => Ok t
  | None => Raise InvalidRef
  end.

Fixpoint getArgumentsRecursive (fuel : nat) (tokenlist : list Token.t)
    (tok : option Ref) (arguments : list nat) : result (list nat) :=
  match fuel with
  | O => Raise RecursionError
  | S fuel =>
      match tok with
      | None => Ok arguments
      | Some (RefToken i) =>
          t ← token_at tokenlist i;
          if attr_is (Token.str t) "," then
            arguments ← getArgumentsRecursive fuel tokenlist
                          (Token.astOperand1 t) arguments;
            getArgumentsRecursive fuel tokenlist (Token.astOperand2 t) arguments
          else Ok (arguments ++ [i])
      | Some _ => Raise AttributeError
      end
  end.

Definition getArguments (fuel : nat) (tokenlist : list Token.t)
    (ftok : Token.t) : result (option (list nat)) :=
  if negb (Token.isName ftok) then Ok None
  else match Token.next ftok with
       | None => Ok None
       | Some n =>
           nt ← token_at tokenlist n;
           if negb (attr_is (Token.str nt) "(") then Ok None
           else Some <$> getArgumentsRecursive fuel tokenlist
                           (Token.astOperand2 nt) []
       end.

(** The argument expression below a [(]: nothing, a token that is not a
    comma, or a comma token over two such expressions. *)
Inductive arg_tree (tokenlist : list Token.t) : option Ref → Prop :=
  | arg_none : arg_tree tokenlist None
  | arg_leaf i t :
      tokenlist !! i = Some t → Token.str t ≠ Some "," →
      arg_tree tokenlist (Some (RefToken i))
  | arg_comma i t :
      tokenlist !! i = Some t → Token.str t = Some "," →
      arg_tree tokenlist (Token.astOperand1 t) →
      arg_tree tokenlist (Token.astOperand2 t) →
      arg_tree tokenlist (Some (RefToken i)).

(** ** Further functions of the module *)

(** [a == b] on the values an attribute may hold; [True == 1] and
    [False == 0] as in Python. *)
Definition py_eq (a b : PyVal) : bool :=
  match a, b with
  | PyNone, PyNone => true
  | PyStr s, PyStr t => String.eqb s t
  | PyInt x, PyInt y => Z.eqb x y
  | PyBool x, PyBool y => Bool.eqb x y
  | PyInt x, PyBool y => Z.eqb x (if y then 1 else 0)
  | PyBool x, PyInt y => Z.eqb (if x then 1 else 0) y
  | _, _ => false
  end.

(** [ValueType.isIntegral], [ValueType.isFloat] *)
Definition ValueType_isIntegral (self : ValueType.t) : bool :=
  existsb (attr_is (ValueType.type self))
          ["bool"; "char"; "short"; "int"; "long"; "long long"].

Definition ValueType_isFloat (self : ValueType.t) : bool :=
  existsb (attr_is (ValueType.type self)) ["float"; "double"; "long double"].

(** The list that a reference of kind [RefValues] denotes. *)
Definition values_at (valueflow : list (option ValueFlow.t)) (i : nat)
    : result (list Value.t) :=
  match valueflow !! i with
  | Some (Some vf) => Ok (ValueFlow.values vf)
  | _ => Raise InvalidRef
  end.

(** The truth value of what a reference denotes: [None] is false, a list is
    true when it is not empty, a record is true. *)
Definition ref_truthy (valueflow : list (option ValueFlow.t))
    (o : option Ref) : result bool :=
  match o with
  | None => Ok false
  | Some (RefValues i) =>
      vs ← values_at valueflow i; Ok (bool_decide (vs ≠ []))
  | Some _ => Ok true
  end.

(** [for value in values: if value.intvalue == v: return value] *)
Fixpoint first_with_intvalue (values : list Value.t) (v : PyVal)
    : option Value.t :=
  match values with
  | [] => None
  | value :: rest =>
      if py_eq (Value.intvalue value) v then Some value
      else first_with_intvalue rest v
  end.

(** [Token.getValue]; the token is one of a configuration with the value
    lists [valueflow].  Iterating over a record that is no list is a
    [TypeError]. *)
Definition Token_getValue (valueflow : list (option ValueFlow.t))
    (self : Token.t) (v : PyVal) : result (option Value.t) :=
  match Token.values self with
  | None => Ok None
  | Some (RefValues i) =>
      vs ← values_at valueflow i; Ok (first_with_intvalue vs v)
  | Some _ => Raise TypeError
  end.

(** [s.split(' ')]: the pieces between single spaces; never empty. *)
Fixpoint split_spaces (s : string) : list string :=
  match s with
  | EmptyString => [EmptyString]
  | String c r =>
      if Ascii.eqb c " " then EmptyString :: split_spaces r
      else match split_spaces r with
           | p :: ps => String c p :: ps
           | [] => [String c EmptyString]
           end
  end.

(** The loop of [simpleMatch] over the pieces of the pattern; [token] is the
    position of the current token in [tokenlist], or [None]. *)
Fixpoint simpleMatch_pieces (tokenlist : list Token.t) (token : option nat)
    (pieces : list string) : result bool :=
  match pieces with
  | [] => Ok true
  | p :: rest =>
      match token with
      | None => Ok false
      | Some i =>
          t ← token_at tokenlist i;
          if negb (attr_is (Token.str t) p) then Ok false
          else simpleMatch_pieces tokenlist (Token.next t) rest
      end
  end.

Definition simpleMatch (tokenlist : list Token.t) (token : option nat)
    (pattern : string) : result bool :=
  simpleMatch_pieces tokenlist token (split_spaces pattern).

(** ** astIsFloat *)

(** [a in b] for strings: [a] occurs in [b]. *)
Fixpoint occurs_in (a b : string) : bool :=
  String.prefix a b
  || match b with
     | EmptyString => false
     | String _ r => occurs_in a r
     end.

(** [c.isdigit()] on ASCII. *)
Definition isdigit (c : ascii) : bool :=
  let n := nat_of_ascii c in (48 <=? n) && (n <=? 57).

(** [for c in s: if c == 'f' or c == '.' or c == 'E': return True] *)
Fixpoint has_float_mark (s : string) : bool :=
  match s with
  | EmptyString => false
  | String c r =>
      Ascii.eqb c "f" || Ascii.eqb c "." || Ascii.eqb c "E" || has_float_mark r
  end.

(** The branch of a token without variable: a literal. *)
Definition literal_is_float (s : string) : bool :=
  match s with
  | String c _ => isdigit c && has_float_mark s
  | EmptyString => false
  end.

(** [x.str] for what a reference denotes: only a token has it. *)
Definition str_of (tokenlist : list Token.t) (o : option Ref)
    : result (option string) :=
  match o with
  | Some (RefToken i) => Token.str <$> token_at tokenlist i
  | _ => Raise AttributeError
  end.

#[global] Instance Ref_eq_dec : EqDecision Ref.
Proof. solve_decision. Defined.

(** [a != b] for what two references denote: records and [None] are compared
    by identity, lists by their items. *)
Definition ref_ne (valueflow : list (option ValueFlow.t))
    (a b : option Ref) : result bool :=
  match a, b with
  | Some (RefValues i), Some (RefValues j) =>
      x ← values_at valueflow i;
      y ← values_at valueflow j;
      Ok (negb (bool_decide (i = j) || (bool_decide (x = []) && bool_decide (y = []))))
  | _, _ => Ok (negb (bool_decide (a = b)))
  end.

Definition is_float_word (o : option string) : bool :=
  attr_is o "float" || attr_is o "double".

(** The [while] loop of [astIsFloat] and the test that follows it.  [steps]
    bounds the number of rounds; [None] is a loop that has not ended within
    the bound. *)
Fixpoint type_range_is_float (steps : nat) (cfg : Configuration.t)
    (typeToken endToken : option Ref) : option (result bool) :=
  match steps with
  | O => None
  | S steps =>
      match ref_ne (Configuration.valueflow cfg) typeToken endToken with
      | Raise e => Some (Raise e)
      | Ok true =>
          match typeToken with
          | Some (RefToken i) =>
              match token_at (Configuration.tokenlist cfg) i with
              | Raise e => Some (Raise e)
              | Ok t =>
                  if is_float_word (Token.str t) then Some (Ok true)
                  else type_range_is_float steps cfg
                         (RefToken <$> Token.next t) endToken
              end
          | _ => Some (Raise AttributeError)
          end
      | Ok false =>
          Some (is_float_word <$> str_of (Configuration.tokenlist cfg) typeToken)
      end
  end.

(** [token.variable.typeStartToken] and [token.variable.typeEndToken] *)
Definition type_range (cfg : Configuration.t) (arguments : list Variable_.t)
    (variable : option Ref) : result (option Ref * option Ref) :=
  match variable with
  | Some (RefVariable i) =>
      match Configuration.variables cfg !! i with
      | Some v => Ok (Variable_.typeStartToken v, Variable_.typeEndToken v)
      | None => Raise InvalidRef
      end
  | Some (RefArgument j) =>
      match arguments !! j with
      | Some v => Ok (Variable_.typeStartToken v, Variable_.typeEndToken v)
      | None => Raise InvalidRef
      end
  | _ => Raise AttributeError
  end.

(** [astIsFloat]; [fuel] bounds the depth of the recursion and [steps] the
    rounds of the loop. *)
Fixpoint astIsFloat (fuel steps : nat) (cfg : Configuration.t)
    (arguments : list Variable_.t) (token : option Ref)
    : option (result bool) :=
  match fuel with
  | O => Some (Raise RecursionError)
  | S fuel =>
      match ref_truthy (Configuration.valueflow cfg) token with
      | Raise e => Some (Raise e)
      | Ok false => Some (Ok false)
      | Ok true =>
          match token with
          | Some (RefToken i) =>
              match token_at (Configuration.tokenlist cfg) i with
              | Raise e => Some (Raise e)
              | Ok t =>
                  if attr_is (Token.str t) "." then
                    astIsFloat fuel steps cfg arguments (Token.astOperand2 t)
                  else
                    match Token.str t with
                    | None => Some (Raise TypeError)
                    | Some s =>
                        if occurs_in s "+-*/%" then
                          match astIsFloat fuel steps cfg arguments
                                  (Token.astOperand1 t) with
                          | Some (Ok false) =>
                              astIsFloat fuel steps cfg arguments
                                (Token.astOperand2 t)
                          | r => r
                          end
                        else
                          match ref_truthy (Configuration.valueflow cfg)
                                  (Token.variable t) with
                          | Raise e => Some (Raise e)
                          | Ok false => Some (Ok (literal_is_float s))
                          | Ok true =>
                              match type_range cfg arguments
                                      (Token.variable t) with
                              | Raise e => Some (Raise e)
                              | Ok (typeToken, endToken) =>
                                  type_range_is_float steps cfg
                                    typeToken endToken
                              end
                          end
                    end
              end
          | _ => Some (Raise AttributeError)
          end
      end
  end.

(** ** Suppression.isMatch

    [fnmatch] is the function of the standard library of that name, on
    strings; the method is given relative to it.  [line] is the value the
    caller passes; [file], [message] and [errorId] are strings.  With the
    ["errorId"] attribute absent, [fnmatch(errorId, None)] is a
    [TypeError]. *)

Section suppression_match.
Variable fnmatch : string → string → bool.

Definition Suppression_isMatch (self : Suppression.t) (file : string)
    (line : PyVal) (message errorId : string) : result bool :=
  if match Suppression.fileName self with
     | None => true
     | Some pat => fnmatch file pat
     end
     && match Suppression.lineNumber self with
        | None => true
        | Some n => py_eq line (PyStr n)
        end
     && match Suppression.symbolName self with
        | None => true
        | Some sym => fnmatch message ("*" ++ sym ++ "*")%string
        end
  then match Suppression.errorId self with
       | Some pat => Ok (fnmatch errorId pat)
       | None => Raise TypeError
       end
  else Ok false.
End suppression_match.

(** * Notions used in the statements, and sample data *)

(** The token in position [i] once the loop of [set_tokens_links] has done
    its first [k] rounds. *)
Definition linked (k i : nat) (t : Token.t) : Token.t :=
  let t := if decide (S i < k) then Token.set_next (Some (S i)) t else t in
  if decide (i < k)
  then Token.set_previous (if i is S j then Some j else None) t
  else t.

(** The tokens of a list form one doubly linked list in the order of the
    list. *)
Definition doubly_linked (tl : list Token.t) : Prop :=
  (∀ i t, tl !! i = Some t →
     Token.previous t = (if i is S j then Some j else None) ∧
     Token.next t = (if decide (S i < length tl) then Some (S i) else None))
  ∧ (∀ i j t, tl !! i = Some t → Token.next t = Some j →
       ∃ u, tl !! j = Some u ∧ Token.previous u = Some i)
  ∧ (∀ i j t, tl !! i = Some t → Token.previous t = Some j →
       ∃ u, tl !! j = Some u ∧ Token.next u = Some i)
  ∧ (∀ t, head tl = Some t → Token.previous t = None)
  ∧ (∀ t, last tl = Some t → Token.next t = None).

(** An element given by its tag, its attributes and its children. *)
Definition elem (t : string) (a : list (string * string))
    (ch : list Element) : Element :=
  mkElement t (list_to_map a) ch.

(** A dump with one configuration: the tokens [f ( a , b )], the function
    [f] whose first argument names the variable [v1], and, after the function
    is closed, the declaration of [v1] without a name token. *)
Definition sample_events : list (Event * Element) :=
  [ (ev_start, elem "dumps" [] []);
    (ev_start, elem "dump" [("cfg", "")] []);
    (ev_start, elem "tokenlist" [] []);
    (ev_start, elem "token" [("id", "t1"); ("str", "f"); ("type", "name");
                             ("linenr", "1"); ("column", "1");
                             ("function", "f1")] []);
    (ev_start, elem "token" [("id", "t2"); ("str", "("); ("linenr", "1");
                             ("column", "2"); ("link", "t6");
                             ("astOperand1", "t1"); ("astOperand2", "t4")] []);
    (ev_start, elem "token" [("id", "t3"); ("str", "a"); ("type", "name");
                             ("linenr", "1"); ("column", "3");
                             ("astParent", "t4")] []);
    (ev_start, elem "token" [("id", "t4"); ("str", ","); ("linenr", "1");
                             ("column", "4"); ("astParent", "t2");
                             ("astOperand1", "t3"); ("astOperand2", "t5")] []);
    (ev_start, elem "token" [("id", "t5"); ("str", "b"); ("type", "name");
                             ("linenr", "1"); ("column", "5");
                             ("astParent", "t4"); ("variable", "0")] []);
    (ev_start, elem "token" [("id", "t6"); ("str", ")"); ("linenr", "1");
                             ("column", "6"); ("link", "t2")] []);
    (ev_end, elem "tokenlist" [] []);
    (ev_start, elem "functionList" [] []);
    (ev_start, elem "function" [("id", "f1"); ("tokenDef", "t1");
                                ("name", "f")] []);
    (ev_start, elem "arg" [("nr", "1"); ("variable", "v1")] []);
    (ev_end, elem "arg" [] []);
    (ev_end, elem "function" [] []);
    (ev_end, elem "functionList" [] []);
    (ev_start, elem "var" [("id", "v1"); ("access", "Argument");
                           ("isArgument", "true")] []);
    (ev_end, elem "var" [] []) ].

Definition sample_close : Event * Element := (ev_end, elem "dump" [] []).

(** The state of the reader before the closing event of the configuration,
    its configuration and the entries of its table. *)
Definition sample_state : Iter.t :=
  Eval vm_compute in
  match (Iter.run Iter.init sample_events).2 with
  | Ok st => st
  | Raise _ => Iter.init
  end.

Definition sample_cfg : Configuration.t :=
  Eval vm_compute in
  default (Configuration.__init__ None) (Iter.cfg sample_state).

Definition sample_entries : list (option string * option Ref) :=
  Eval vm_compute in
  match Configuration.all_entries sample_cfg (Iter.cfg_arguments sample_state) with
  | Ok es => es
  | Raise _ => []
  end.

(** The configuration that the closing event yields, and its tokens. *)
Definition sample_yield : Iter.Yield :=
  Eval vm_compute in
  match Iter.step sample_state sample_close with
  | Ok (_, Some y) => y
  | _ => (Configuration.__init__ None, [])
  end.

Definition sample_tokens : list Token.t :=
  Eval vm_compute in Configuration.tokenlist sample_yield.1.

(** A configuration that is not resolved yet: the one of the sample, with
    a variable whose scope is the identifier of no record. *)
Definition dangling_var : Element :=
  elem "var" [("id", "v2"); ("nameToken", "t3"); ("scope", "s9")] [].

Definition dangling_cfg : Configuration.t :=
  Eval vm_compute in
  match Variable_.__init__ dangling_var with
  | Ok v => Configuration.append_variable v sample_cfg
  | Raise _ => sample_cfg
  end.





(** Value elements. *)
Definition value_int : Element :=
  elem "value" [("intvalue", "5"); ("condition-line", "12"); ("known", "true")] [].

Definition value_float : Element :=
  elem "value" [("floatvalue", "1.5"); ("container-size", "3");
                ("possible", "true")] [].

(** A document with a platform, one raw token of one file, and one
    suppression. *)
Definition sample_file : Element := elem "file" [("index", "0"); ("name", "a.c")] [].
Definition sample_tok : Element :=
  elem "tok" [("fileIndex", "0"); ("linenr", "1"); ("column", "1");
              ("str", "x")] [].
Definition sample_suppression : Element :=
  elem "suppression" [("errorId", "e1"); ("fileName", "a.c")] [].

Definition sample_document : list (Event * Element) :=
  [ (ev_start, elem "dumps" [] []);
    (ev_start, elem "platform" [("name", "unix64"); ("char_bit", "8");
                                ("short_bit", "16"); ("int_bit", "32");
                                ("long_bit", "64"); ("long_long_bit", "64");
                                ("pointer_bit", "64")] []);
    (ev_end, elem "platform" [] []);
    (ev_start, elem "rawtokens" [] []);
    (ev_start, sample_file);
    (ev_end, sample_file);
    (ev_start, sample_tok);
    (ev_end, sample_tok);
    (ev_end, elem "rawtokens" [] [sample_file; sample_tok]);
    (ev_start, elem "suppressions" [] []);
    (ev_start, sample_suppression);
    (ev_end, sample_suppression);
    (ev_end, elem "suppressions" [] [sample_suppression]);
    (ev_start, elem "dump" [("cfg", "")] []);
    (ev_end, elem "dump" [] []) ].

(** The table of the configuration with the dangling scope identifier. *)
Definition dangling_table : IdMapT :=
  Eval vm_compute in
  match Configuration.build_IdMap dangling_cfg (Iter.cfg_arguments sample_state) with
  | Ok m => m
  | Raise _ => ∅
  end.

(** The function and the argument variable of the sample, the state after
    the closing event, and the tokens [f] and [(]. *)
Definition sample_function : Function_.t :=
  Eval vm_compute in
  default (Function_.__init__ (elem "function" [] []))
          (mjoin (Configuration.functions sample_cfg !! 0)).

Definition sample_argument : Variable_.t :=
  Eval vm_compute in
  match Variable_.__init__ (elem "var" [("id", "v1"); ("access", "Argument");
                                        ("isArgument", "true")] []) with
  | Ok v => v
  | Raise _ =>
      Variable_.mk None None None None None None None None None None false
        false false false false false false false false false PyNone
  end.

Definition sample_closed : Iter.t :=
  Eval vm_compute in
  match Iter.step sample_state sample_close with
  | Ok (st, _) => st
  | Raise _ => Iter.init
  end.

Definition sample_f : Token.t :=
  Eval vm_compute in
  match sample_tokens with
  | t :: _ => t
  | [] => Token.mk None None None None None None None None false false false
            false false None false false false false false false false false
            false None None None None None None None None None None None
            None None None None None None 0 0
  end.

Definition sample_paren : Token.t :=
  Eval vm_compute in default sample_f (sample_tokens !! 1).


(** A computation on the class attributes that, from whatever lists it
    starts, appends [toks] and [sups] to them and ends with [r]. *)
Definition appends {A} (m : CppcheckData.M A) (toks : list Token.t)
    (sups : list Suppression.t) (r : result A) : Prop :=
  ∀ c, m c = (CppcheckData.mkClass (CppcheckData.rawTokens c ++ toks)
                                   (CppcheckData.suppressions c ++ sups), r).

(** The tokens of the configuration under construction have no successor. *)
Definition unlinked (st : Iter.t) : Prop :=
  ∀ c, Iter.cfg st = Some c →
    Forall (λ t, Token.next t = None) (Configuration.tokenlist c).

(** * Notions for the further properties *)

(** The tokens that an argument expression lists from left to right: the
    leaves of the tree of its comma tokens. *)
Inductive flat (tokenlist : list Token.t) : option Ref → list nat → Prop :=
  | flat_none : flat tokenlist None []
  | flat_leaf i t :
      tokenlist !! i = Some t → Token.str t ≠ Some "," →
      flat tokenlist (Some (RefToken i)) [i]
  | flat_comma i t l1 l2 :
      tokenlist !! i = Some t → Token.str t = Some "," →
      flat tokenlist (Token.astOperand1 t) l1 →
      flat tokenlist (Token.astOperand2 t) l2 →
      flat tokenlist (Some (RefToken i)) (l1 ++ l2).

(** The kind flags of a token, as numbers. *)
Definition kind_count (t : Token.t) : nat :=
  Nat.b2n (Token.isName t) + Nat.b2n (Token.isNumber t)
  + Nat.b2n (Token.isString t) + Nat.b2n (Token.isChar t)
  + Nat.b2n (Token.isOp t).

Definition op_kind_count (t : Token.t) : nat :=
  Nat.b2n (Token.isArithmeticalOp t) + Nat.b2n (Token.isAssignmentOp t)
  + Nat.b2n (Token.isComparisonOp t) + Nat.b2n (Token.isLogicalOp t).

(** What the resolution leaves alone in a token. *)
Definition Token_text (t : Token.t)
    : option string * option string * option string * Z * Z * bool :=
  (Token.Id t, Token.str t, Token.file t, Token.linenr t, Token.column t,
   Token.isName t).

(** The events of a kind. *)
Definition is_dump_end (ev : Event * Element) : bool :=
  String.eqb (tag ev.2) "dump" && bool_decide (ev.1 = ev_end).

Definition is_token_start (ev : Event * Element) : bool :=
  is_ev ev.2 ev.1 "token" ev_start.

(** ** Further sample data *)

Definition plus_element : Element :=
  elem "token" [("id", "t7"); ("str", "+"); ("type", "op");
                ("isArithmeticalOp", "true"); ("linenr", "2");
                ("column", "7")] [].

(** A configuration in which a token and a value list are issued the same
    identifier, and a second token names it as its values. *)
Definition shared_id_events : list (Event * Element) :=
  [ (ev_start, elem "dump" [("cfg", "")] []);
    (ev_start, elem "token" [("id", "a1"); ("str", "x"); ("type", "name");
                             ("linenr", "1"); ("column", "1")] []);
    (ev_start, elem "token" [("id", "a2"); ("str", "1"); ("type", "number");
                             ("linenr", "1"); ("column", "2");
                             ("values", "a1")] []);
    (ev_start, elem "values" [("id", "a1")] []);
    (ev_start, elem "value" [("intvalue", "1"); ("known", "true")] []);
    (ev_end, elem "values" [] []) ].

Definition shared_id_state : Iter.t :=
  Eval vm_compute in
  match (Iter.run Iter.init shared_id_events).2 with
  | Ok st => st
  | Raise _ => Iter.init
  end.

Definition shared_id_cfg : Configuration.t :=
  Eval vm_compute in
  default (Configuration.__init__ None) (Iter.cfg shared_id_state).

(** The identifier and the text of the tokens of a list, and of the [token]
    elements among events. *)
Definition heads (tl : list Token.t) : list (option string * option string) :=
  (λ t, (Token.Id t, Token.str t)) <$> tl.

Definition token_heads (events : list (Event * Element))
    : list (option string * option string) :=
  (λ ev, (get ev.2 "id", get ev.2 "str")) <$> filter (λ ev, is_token_start ev = true) events.

(** The events at which the reader reads or writes an attribute of the
    configuration under construction, whatever the element carries. *)
Definition needs_cfg (ev : Event * Element) : bool :=
  is_ev ev.2 ev.1 "dump" ev_end
  || is_ev ev.2 ev.1 "directive" ev_start
  || is_ev ev.2 ev.1 "token" ev_start
  || is_ev ev.2 ev.1 "scope" ev_start
  || is_ev ev.2 ev.1 "function" ev_end
  || is_ev ev.2 ev.1 "values" ev_end.

(** The events of the sample between the opening and the closing event of
    its [dump] element. *)
Definition sample_body : list (Event * Element) :=
  Eval vm_compute in drop 2 sample_events.

(** The call [f ( a , b , c )]: the second operand of [(] is the second
    comma, whose first operand is the first comma. *)
Definition call3_events : list (Event * Element) :=
  [ (ev_start, elem "dump" [("cfg", "")] []);
    (ev_start, elem "token" [("id", "u1"); ("str", "f"); ("type", "name");
                             ("linenr", "1"); ("column", "1")] []);
    (ev_start, elem "token" [("id", "u2"); ("str", "("); ("linenr", "1");
                             ("column", "2"); ("astOperand1", "u1");
                             ("astOperand2", "u6")] []);
    (ev_start, elem "token" [("id", "u3"); ("str", "a"); ("type", "name");
                             ("linenr", "1"); ("column", "3")] []);
    (ev_start, elem "token" [("id", "u4"); ("str", ","); ("linenr", "1");
                             ("column", "4"); ("astOperand1", "u3");
                             ("astOperand2", "u5")] []);
    (ev_start, elem "token" [("id", "u5"); ("str", "b"); ("type", "name");
                             ("linenr", "1"); ("column", "5")] []);
    (ev_start, elem "token" [("id", "u6"); ("str", ","); ("linenr", "1");
                             ("column", "6"); ("astOperand1", "u4");
                             ("astOperand2", "u7")] []);
    (ev_start, elem "token" [("id", "u7"); ("str", "c"); ("type", "name");
                             ("linenr", "1"); ("column", "7")] []);
    (ev_start, elem "token" [("id", "u8"); ("str", ")"); ("linenr", "1");
                             ("column", "8")] []);
    (ev_end, elem "dump" [] []) ].

Definition call3_tokens : list Token.t :=
  Eval vm_compute in
  match (iterconfigurations call3_events).1 with
  | y :: _ => Configuration.tokenlist y.1
  | [] => []
  end.

Definition call3_f : Token.t :=
  Eval vm_compute in default sample_f (call3_tokens !! 0).

(** The statements [float x ; x = 3 + 1.5 ;] with the variable [x], whose
    type is the token [float], and the values 3 (known) and 4 (possible) of
    the token [3]. *)
Definition expr_events : list (Event * Element) :=
  [ (ev_start, elem "dump" [("cfg", "")] []);
    (ev_start, elem "token" [("id", "e1"); ("str", "float"); ("type", "name");
                             ("linenr", "1"); ("column", "1")] []);
    (ev_start, elem "token" [("id", "e2"); ("str", "x"); ("type", "name");
                             ("linenr", "1"); ("column", "7");
                             ("variable", "v1")] []);
    (ev_start, elem "token" [("id", "e3"); ("str", ";"); ("linenr", "1");
                             ("column", "8")] []);
    (ev_start, elem "token" [("id", "e4"); ("str", "x"); ("type", "name");
                             ("linenr", "2"); ("column", "1");
                             ("variable", "v1"); ("astParent", "e5")] []);
    (ev_start, elem "token" [("id", "e5"); ("str", "="); ("type", "op");
                             ("isAssignmentOp", "true"); ("linenr", "2");
                             ("column", "3"); ("astOperand1", "e4");
                             ("astOperand2", "e7")] []);
    (ev_start, elem "token" [("id", "e6"); ("str", "3"); ("type", "number");
                             ("isInt", "true"); ("linenr", "2");
                             ("column", "5"); ("values", "w1");
                             ("astParent", "e7")] []);
    (ev_start, elem "token" [("id", "e7"); ("str", "+"); ("type", "op");
                             ("isArithmeticalOp", "true"); ("linenr", "2");
                             ("column", "7"); ("astParent", "e5");
                             ("astOperand1", "e6"); ("astOperand2", "e8")] []);
    (ev_start, elem "token" [("id", "e8"); ("str", "1.5"); ("type", "number");
                             ("isFloat", "true"); ("linenr", "2");
                             ("column", "9"); ("astParent", "e7")] []);
    (ev_start, elem "token" [("id", "e9"); ("str", ";"); ("linenr", "2");
                             ("column", "12")] []);
    (ev_start, elem "var" [("id", "v1"); ("nameToken", "e2");
                           ("typeStartToken", "e1"); ("typeEndToken", "e1");
                           ("access", "Local"); ("isLocal", "true")] []);
    (ev_start, elem "values" [("id", "w1")] []);
    (ev_start, elem "value" [("intvalue", "3"); ("known", "true")] []);
    (ev_start, elem "value" [("intvalue", "4"); ("possible", "true")] []);
    (ev_end, elem "values" [] []);
    (ev_end, elem "dump" [] []) ].

Definition expr_yield : Iter.Yield :=
  Eval vm_compute in
  match (iterconfigurations expr_events).1 with
  | y :: _ => y
  | [] => (Configuration.__init__ None, [])
  end.

Definition expr_cfg : Configuration.t := Eval vm_compute in expr_yield.1.

Definition expr_tokens : list Token.t :=
  Eval vm_compute in Configuration.tokenlist expr_cfg.

Definition expr_three : Token.t :=
  Eval vm_compute in default sample_f (expr_tokens !! 5).

Definition expr_x : Token.t :=
  Eval vm_compute in default sample_f (expr_tokens !! 3).

Definition expr_values : list Value.t :=
  Eval vm_compute in
  match values_at (Configuration.valueflow expr_cfg) 0 with
  | Ok vs => vs
  | Raise _ => []
  end.

(** The position [i] of a token list as a token: past the last token there
    is none. *)
Definition at_position (tl : list Token.t) (i : nat) : option nat :=
  if decide (i < length tl) then Some i else None.

(** The text of a token is [float] or [double]. *)
Definition float_word (t : Token.t) : bool := is_float_word (Token.str t).

(** The configuration of [expr_events] with the start and the end of the type
    of the variable exchanged and moved one token on. *)
Definition reversed_events : list (Event * Element) :=
  take 10 expr_events
  ++ [ (ev_start, elem "var" [("id", "v1"); ("nameToken", "e2");
                              ("typeStartToken", "e2");
                              ("typeEndToken", "e1")] []) ]
  ++ drop 11 expr_events.

Definition reversed_cfg : Configuration.t :=
  Eval vm_compute in
  match (iterconfigurations reversed_events).1 with
  | y :: _ => y.1
  | [] => Configuration.__init__ None
  end.

(** A token has neither predecessor nor successor. *)
Definition detached (t : Token.t) : Prop :=
  Token.previous t = None ∧ Token.next t = None.

(** The ends of a token list are open: the first token has no predecessor and
    the last one no successor. *)
Definition open_ends (tl : list Token.t) : Prop :=
  (∀ t, head tl = Some t → Token.previous t = None)
  ∧ (∀ t, last tl = Some t → Token.next t = None).

(** The token in position [i] once the loop that links the raw tokens has
    done its first [k] rounds. *)
Definition raw_linked (k i : nat) (t : Token.t) : Token.t :=
  let t := if decide (0 < i ≤ k) then Token.set_previous (Some (i - 1)) t
           else t in
  if decide (i < k) then Token.set_next (Some (i + 1)) t else t.

Definition all_done (l : CppcheckData.Locals) : bool :=
  CppcheckData.platform_done l && CppcheckData.rawtokens_done l
  && CppcheckData.suppressions_done l.

(** A document with two source files and three raw tokens. *)
Definition raw_file (name : string) : Element := elem "file" [("name", name)] [].

Definition raw_tok (ix s : string) : Element :=
  elem "tok" [("fileIndex", ix); ("linenr", "1"); ("column", "1"); ("str", s)] [].

Definition raw_children : list Element :=
  [ raw_file "a.c"; raw_tok "0" "int"; raw_file "a.h"; raw_tok "1" "x";
    raw_tok "-1" ";" ].

Definition raw_document : list (Event * Element) :=
  [ (ev_start, elem "dumps" [] []);
    (ev_start, elem "platform" [("name", "unix64"); ("char_bit", "8");
                                ("short_bit", "16"); ("int_bit", "32");
                                ("long_bit", "64"); ("long_long_bit", "64");
                                ("pointer_bit", "64")] []);
    (ev_end, elem "rawtokens" [] raw_children);
    (ev_end, elem "suppressions" [] [sample_suppression]) ].

(** A suppression for one line. *)
Definition line_suppression : Element :=
  elem "suppression" [("errorId", "e1"); ("lineNumber", "12")] [].

(** The names of the [file] elements of a list of elements. *)
Definition file_names (nodes : list Element) : list (option string) :=
  (λ node, get node "name") <$> nodes.

(** * Properties *)

(** ** The exception monad *)

Lemma bind_Ok {A B} (m : result A) (k : A → result B) (b : B) :
  m ≫= k = Ok b ↔ ∃ a, m = Ok a ∧ k a = Ok b.
Proof.
  destruct m as [a|e]; simpl; split.
  - eauto.
  - intros (a' & [= <-] & H); exact H.
  - discriminate.
  - intros (a' & [=] & _).
Qed.

Lemma fmap_Ok {A B} (f : A → B) (m : result A) (b : B) :
  f <$> m = Ok b ↔ ∃ a, m = Ok a ∧ b = f a.
Proof.
  destruct m as [a|e]; simpl; split.
  - intros [= <-]; eauto.
  - intros (a' & [= <-] & ->); reflexivity.
  - discriminate.
  - intros (a' & [=] & _).
Qed.

Lemma for_each_Forall2 {A B} (f : A → result B) l l' :
  for_each f l = Ok l' ↔ Forall2 (λ x y, f x = Ok y) l l'.
Proof.
  revert l'; induction l as [|x l IH]; intros l'; simpl.
  - split; [intros [= <-]; constructor | inversion 1; reflexivity].
  - split.
    + intros H. apply bind_Ok in H as (y & Hy & H).
      apply bind_Ok in H as (ys & Hys & [= <-]).
      constructor; [exact Hy | by apply IH].
    + inversion 1 as [|? y ? ys Hy Hys]; subst.
      apply IH in Hys. by rewrite Hy, Hys.
Qed.

Lemma for_each_id {A} (f : A → result A) l :
  Forall (λ x, f x = Ok x) l → for_each f l = Ok l.
Proof.
  intros H. apply for_each_Forall2.
  induction H; constructor; auto.
Qed.

Lemma for_each_only_raises {A B} (f : A → result B) l e e' :
  Forall (λ x, ∀ e', f x = Raise e' → e' = e) l →
  for_each f l = Raise e' → e' = e.
Proof.
  induction l as [|x l IH]; intros Hall; [discriminate|].
  apply Forall_cons in Hall as [Hx Hall]. simpl.
  destruct (f x) as [y|e1] eqn:E; simpl.
  - destruct (for_each f l) eqn:E2; simpl; [discriminate|].
    intros [= <-]. by apply IH.
  - intros [= <-]. by apply Hx.
Qed.

(** ** Linking the tokens *)

Section links.
Import Token.

Lemma links_loop (tl : list Token.t) (k : nat) :
  k ≤ length tl →
  foldl Configuration.links_step (None, tl) (seq 0 k)
  = (if k is S j then Some j else None, imap (linked k) tl).
Proof.
  induction k as [|k IH]; intros Hk.
  - simpl. f_equal. apply list_eq; intros i.
    rewrite list_lookup_imap. unfold linked.
    repeat case_decide; try lia. by destruct (tl !! i).
  - rewrite seq_S, foldl_app, IH by lia. simpl.
    unfold Configuration.links_step; simpl. f_equal.
    apply list_eq; intros i. rewrite list_lookup_imap.
    destruct k as [|j].
    + destruct (decide (i = 0)) as [->|Hi].
      * rewrite list_lookup_alter_eq, list_lookup_imap.
        destruct (tl !! 0); [|done]. simpl. unfold linked; simpl. done.
      * rewrite list_lookup_alter_ne, list_lookup_imap by done.
        destruct (tl !! i); [|done]. simpl. unfold linked.
        repeat case_decide; try lia; done.
    + destruct (decide (i = j)) as [->|Hij].
      * rewrite list_lookup_alter_eq, list_lookup_alter_ne, list_lookup_imap by lia.
        destruct (tl !! j); [|done]. simpl. unfold linked.
        repeat case_decide; try lia. reflexivity.
      * rewrite list_lookup_alter_ne by done.
        destruct (decide (i = S j)) as [->|Hi].
        -- rewrite list_lookup_alter_eq, list_lookup_imap.
           destruct (tl !! S j); [|done]. simpl. unfold linked.
           repeat case_decide; try lia. reflexivity.
        -- rewrite list_lookup_alter_ne, list_lookup_imap by done.
           destruct (tl !! i); [|done]. simpl. unfold linked.
           repeat case_decide; try lia; done.
Qed.

Lemma link_tokens_imap (tl : list Token.t) :
  Configuration.link_tokens tl = imap (linked (length tl)) tl.
Proof. unfold Configuration.link_tokens. by rewrite links_loop. Qed.

End links.

(** The list that the loop leaves is doubly linked, when the last token had
    no successor before. *)
Lemma link_tokens_doubly_linked (l : list Token.t) :
  (∀ t, last l = Some t → Token.next t = None) →
  doubly_linked (Configuration.link_tokens l).
Proof.
  intros Hlast. unfold doubly_linked.
  rewrite link_tokens_imap.
  assert (Hlen : length (imap (linked (length l)) l) = length l)
    by apply length_imap.
  assert (Hpos : ∀ i t, imap (linked (length l)) l !! i = Some t →
     Token.previous t = (if i is S j then Some j else None) ∧
     Token.next t = (if decide (S i < length l) then Some (S i) else None)).
  { intros i t. rewrite list_lookup_imap.
    destruct (l !! i) as [t0|] eqn:E; [|done]. intros [= <-].
    pose proof (lookup_lt_Some _ _ _ E) as Hi. unfold linked.
    rewrite decide_True by done. split; [reflexivity|].
    case_decide; [reflexivity|]. simpl. apply Hlast.
    rewrite last_lookup. replace (pred (length l)) with i by lia. done. }
  rewrite Hlen. split; [exact Hpos|].
  split; [|split; [|split]].
  - intros i j t Hi Hn. destruct (Hpos _ _ Hi) as [_ Hnext].
    rewrite Hn in Hnext. case_decide; [|done]. injection Hnext as ->.
    destruct (lookup_lt_is_Some_2 (imap (linked (length l)) l) (S i)) as [u Hu];
      [lia|].
    exists u. split; [done|]. by destruct (Hpos _ _ Hu).
  - intros i j t Hi Hp. destruct (Hpos _ _ Hi) as [Hprev _].
    rewrite Hp in Hprev. destruct i as [|i]; [done|]. injection Hprev as ->.
    pose proof (lookup_lt_Some _ _ _ Hi) as Hlt.
    destruct (lookup_lt_is_Some_2 (imap (linked (length l)) l) i) as [u Hu];
      [lia|].
    exists u. split; [done|]. destruct (Hpos _ _ Hu) as [_ ->].
    rewrite decide_True by lia. done.
  - intros t Ht. rewrite head_lookup in Ht. by destruct (Hpos _ _ Ht).
  - intros t Ht. rewrite last_lookup in Ht.
    pose proof (lookup_lt_Some _ _ _ Ht) as Hlt.
    destruct (Hpos _ _ Ht) as [_ ->]. rewrite decide_False by lia. done.
Qed.



(** ** The lookup table *)

Section table.
Import Configuration.
Implicit Types (m : IdMapT) (es : list (option string * option Ref)).

Lemma update_app m es1 es2 : update m (es1 ++ es2) = update (update m es1) es2.
Proof. apply foldl_app. Qed.

Lemma update_snoc m es e : update m (es ++ [e]) = <[e.1 := e.2]> (update m es).
Proof. by rewrite update_app. Qed.

Lemma update_lookup_notin m es k :
  k ∉ es.*1 → update m es !! k = m !! k.
Proof.
  induction es as [|e es IH] using rev_ind; [done|].
  rewrite fmap_app, not_elem_of_app. simpl. intros [H1 H2].
  rewrite update_snoc, lookup_insert_ne; [auto|]. set_solver.
Qed.

Lemma update_lookup_in m es k v :
  (k, v) ∈ es → (∀ v', (k, v') ∈ es → v' = v) →
  update m es !! k = Some v.
Proof.
  induction es as [|[k' v'] es IH] using rev_ind; [by intros ?%elem_of_nil|].
  intros Hin Huniq. rewrite update_snoc. simpl.
  destruct (decide (k' = k)) as [->|Hne].
  - rewrite lookup_insert_eq. f_equal. apply Huniq. set_solver.
  - rewrite lookup_insert_ne by done. apply IH.
    + apply elem_of_app in Hin as [?|Hin]; [done|]. set_solver.
    + intros v'' ?. apply Huniq. set_solver.
Qed.

Lemma entries_lookup {A} (Id : A → option string) ref (l : list A) i :
  entries Id ref l !! i = (λ x, (Id x, Some (ref i))) <$> l !! i.
Proof. apply list_lookup_imap. Qed.

Lemma elem_of_entries {A} (Id : A → option string) ref (l : list A) k r :
  (k, r) ∈ entries Id ref l ↔ ∃ i x, l !! i = Some x ∧ k = Id x ∧ r = Some (ref i).
Proof.
  rewrite list_elem_of_lookup. setoid_rewrite entries_lookup. split.
  - intros (i & H). destruct (l !! i) as [x|] eqn:E; [|done].
    injection H as <- <-. eauto.
  - intros (i & x & E & -> & ->). exists i. by rewrite E.
Qed.

(** Two lists whose items carry the same identifiers position by position
    give the same entries. *)
Lemma entries_ext {A} (Id : A → option string) ref (l l' : list A) :
  Forall2 (λ x y, Id y = Id x) l l' → entries Id ref l' = entries Id ref l.
Proof.
  intros H. apply list_eq; intros i. rewrite !entries_lookup.
  destruct (proj1 (Forall2_lookup _ _ _) H i) as [|]; simpl; congruence.
Qed.


End table.

(** ** Rewriting one record *)

Lemma getitem_Ok (m : IdMapT) k r : getitem m k = Ok r ↔ m !! k = Some r.
Proof. unfold getitem. destruct (m !! k); split; congruence. Qed.

Lemma getitem_Raise (m : IdMapT) k e : getitem m k = Raise e → e = KeyError.
Proof. unfold getitem. destruct (m !! k); congruence. Qed.

Lemma resolved_cons (m : IdMapT) k v rels :
  resolved m ((k, v) :: rels) ↔ (is_Some v ∧ m !! k = v) ∧ resolved m rels.
Proof. unfold resolved. by rewrite Forall_cons. Qed.

Lemma resolved_app (m : IdMapT) (r1 r2 : list Relation) :
  resolved m (r1 ++ r2) ↔ resolved m r1 ∧ resolved m r2.
Proof. apply Forall_app. Qed.

(** A record whose rewriting succeeds has all its identifiers in the table. *)
Lemma resolved_keys (m : IdMapT) (rels rels' : list Relation) k :
  resolved m rels' → rels'.*1 = rels.*1 → k ∈ rels.*1 → is_Some (m !! k).
Proof.
  intros Hres <- Hk. apply list_elem_of_fmap in Hk as ([k' v] & -> & Hin).
  unfold resolved in Hres. rewrite Forall_forall in Hres.
  destruct (Hres _ Hin) as [Hv Heq]. simpl in *. by rewrite Heq.
Qed.

Ltac getitems H :=
  repeat match type of H with
  | _ ≫= _ = Ok _ =>
      let r := fresh "r" in let Hr := fresh "Hr" in
      apply bind_Ok in H as (r & Hr & H);
      try apply getitem_Ok in Hr
  end.

Ltac split_resolved H :=
  repeat (rewrite resolved_cons in H;
          let E := fresh "E" in destruct H as [[_ E] H]; simpl in E).

Ltac raises_KeyError :=
  repeat match goal with
  | |- context [getitem ?m ?k] =>
      let E := fresh "E" in
      destruct (getitem m k) eqn:E; simpl;
      [| intros [= <-]; by eapply getitem_Raise]
  end.

Section records.
Implicit Types (m : IdMapT).

Lemma ValueType_setId_Ok m vt vt' :
  ValueType.setId m vt = Ok vt' →
  (ValueType.relations vt').*1 = (ValueType.relations vt).*1
  ∧ resolved m (ValueType.relations vt').
Proof.
  unfold ValueType.setId. intros H. getitems H. injection H as <-.
  split; [reflexivity|]. repeat constructor; simpl; eauto.
Qed.

Lemma ValueType_setId_fix m vt :
  resolved m (ValueType.relations vt) → ValueType.setId m vt = Ok vt.
Proof.
  intros [[_ H] _]%resolved_cons. simpl in H.
  unfold ValueType.setId, getitem. rewrite H. by destruct vt.
Qed.

Lemma ValueType_setId_Raise m vt e :
  ValueType.setId m vt = Raise e → e = KeyError.
Proof. unfold ValueType.setId. raises_KeyError. discriminate. Qed.

Lemma Token_setId_Ok m t t' :
  Token.setId m t = Ok t' →
  Token.Id t' = Token.Id t
  ∧ (Token.relations t').*1 = (Token.relations t).*1
  ∧ resolved m (Token.relations t').
Proof.
  unfold Token.setId. intros H. getitems H.
  destruct (Token.valueType t) as [vt|] eqn:Evt.
  - apply fmap_Ok in Hr8 as (vt' & Hvt & ->). injection H as <-.
    apply ValueType_setId_Ok in Hvt as [Hk Hres].
    unfold Token.relations. rewrite Evt. simpl. simpl in Hk.
    split; [reflexivity|]. split; [by rewrite Hk|].
    apply resolved_cons in Hres as [Hv _]. simpl in Hv.
    repeat (apply resolved_cons; split; [simpl; eauto|]). constructor.
  - injection Hr8 as <-. injection H as <-.
    unfold Token.relations. rewrite Evt. simpl.
    split; [reflexivity|]. split; [reflexivity|].
    repeat (apply resolved_cons; split; [simpl; eauto|]). constructor.
Qed.

Lemma Token_setId_fix m t :
  resolved m (Token.relations t) → Token.setId m t = Ok t.
Proof.
  unfold Token.relations. rewrite resolved_app. intros [H Hvt].
  split_resolved H.
  unfold Token.setId, getitem.
  repeat match goal with E : m !! _ = Some _ |- _ => rewrite E; clear E end.
  simpl. destruct t as [? ? ? ? ? ? ? ? ? ? ? ? ? ? ? ? ? ? ? ? ? ? ? ? ? ? ? ? ? ? vt
    ? ? ? ? ? ? ? ? ? ? ?]. simpl in *.
  destruct vt as [vt|]; simpl in *; [|reflexivity].
  by rewrite ValueType_setId_fix.
Qed.

Lemma Token_setId_Raise m t e : Token.setId m t = Raise e → e = KeyError.
Proof.
  unfold Token.setId. raises_KeyError.
  destruct (Token.valueType t) as [vt|]; simpl; [|discriminate].
  destruct (ValueType.setId m vt) eqn:Evt; simpl; [discriminate|].
  intros [= <-]. by eapply ValueType_setId_Raise.
Qed.

Lemma Scope_setId_Ok m s s' :
  Scope.setId m s = Ok s' →
  Scope.Id s' = Scope.Id s
  ∧ (Scope.relations s').*1 = (Scope.relations s).*1
  ∧ resolved m (Scope.relations s').
Proof.
  unfold Scope.setId. intros H. getitems H. injection H as <-.
  split; [reflexivity|]. split; [reflexivity|].
  repeat (apply resolved_cons; split; [simpl; eauto|]). constructor.
Qed.

Lemma Scope_setId_fix m s :
  resolved m (Scope.relations s) → Scope.setId m s = Ok s.
Proof.
  unfold Scope.relations. intros H.
  split_resolved H.
  unfold Scope.setId, getitem.
  repeat match goal with E : m !! _ = Some _ |- _ => rewrite E; clear E end.
  by destruct s.
Qed.

Lemma Scope_setId_Raise m s e : Scope.setId m s = Raise e → e = KeyError.
Proof. unfold Scope.setId. raises_KeyError. discriminate. Qed.

Lemma Variable_setId_Ok m v v' :
  Variable_.setId m v = Ok v' →
  Variable_.Id v' = Variable_.Id v
  ∧ (Variable_.relations v').*1 = (Variable_.relations v).*1
  ∧ resolved m (Variable_.relations v').
Proof.
  unfold Variable_.setId. intros H. getitems H. injection H as <-.
  split; [reflexivity|]. split; [reflexivity|].
  repeat (apply resolved_cons; split; [simpl; eauto|]). constructor.
Qed.

Lemma Variable_setId_fix m v :
  resolved m (Variable_.relations v) → Variable_.setId m v = Ok v.
Proof.
  unfold Variable_.relations. intros H.
  split_resolved H.
  unfold Variable_.setId, getitem.
  repeat match goal with E : m !! _ = Some _ |- _ => rewrite E; clear E end.
  by destruct v.
Qed.

Lemma Variable_setId_Raise m v e : Variable_.setId m v = Raise e → e = KeyError.
Proof. unfold Variable_.setId. raises_KeyError. discriminate. Qed.

End records.

Section function_records.
Implicit Types (m : IdMapT) (a : gmap Z (option Ref)).
Import Function_.

Lemma assign_items_Ok m items a a' :
  assign_items m items a = Ok a' →
  NoDup items.*1 →
  (∀ nr argid, (nr, argid) ∈ items → ∃ r, m !! argid = Some r ∧ a' !! nr = Some r)
  ∧ (∀ nr, nr ∉ items.*1 → a' !! nr = a !! nr).
Proof.
  revert a. induction items as [|[nr0 argid0] items IH]; intros a H Hnd.
  - injection H as <-. split; [by intros ?? ?%elem_of_nil | done].
  - simpl in H. apply bind_Ok in H as (r & Hr%getitem_Ok & H).
    simpl in Hnd. apply NoDup_cons in Hnd as [Hnotin Hnd].
    destruct (IH _ H Hnd) as [Hin Hout]. split.
    + intros nr argid [[= -> ->]|Hel]%elem_of_cons.
      * exists r. split; [done|]. by rewrite Hout, lookup_insert_eq.
      * by apply Hin.
    + intros nr Hnr. simpl in Hnr. apply not_elem_of_cons in Hnr as [Hne Hnr].
      by rewrite Hout, lookup_insert_ne.
Qed.

Lemma assign_items_fix m items a :
  (∀ nr argid, (nr, argid) ∈ items → is_Some (a !! nr) ∧ m !! argid = a !! nr) →
  assign_items m items a = Ok a.
Proof.
  induction items as [|[nr0 argid0] items IH]; intros H; [done|].
  destruct (H nr0 argid0) as [[r Hr] Hm]; [by left|].
  simpl. unfold getitem. rewrite Hm, Hr. simpl.
  rewrite insert_id by done. apply IH. intros ???. apply H. by right.
Qed.

Lemma assign_items_Raise m items a e :
  assign_items m items a = Raise e → e = KeyError.
Proof.
  revert a. induction items as [|[nr0 argid0] items IH]; intros a; [done|].
  simpl. destruct (getitem m argid0) eqn:E; simpl; [apply IH|].
  intros [= <-]. by eapply getitem_Raise.
Qed.

Lemma Function_setId_Ok m f f' :
  setId m f = Ok f' →
  Id f' = Id f
  ∧ argumentId f' = argumentId f
  ∧ (relations f').*1 = (relations f).*1
  ∧ resolved m (relations f').
Proof.
  unfold setId. intros H.
  apply bind_Ok in H as (a' & Ha & H).
  apply bind_Ok in H as (r & Hr%getitem_Ok & [= <-]).
  apply assign_items_Ok in Ha as [Hin _]; [|apply NoDup_fst_map_to_list].
  split; [reflexivity|]. split; [reflexivity|]. unfold relations; simpl. split.
  - f_equal. rewrite <- !list_fmap_compose. by apply list_fmap_ext.
  - apply resolved_cons. split; [eauto|].
    unfold resolved. rewrite Forall_fmap, Forall_forall. intros [nr argid] Hel.
    simpl. destruct (Hin _ _ Hel) as (r' & Hm & Ha'). rewrite Hm, Ha'. eauto.
Qed.

Lemma Function_setId_fix m f :
  resolved m (relations f) → setId m f = Ok f.
Proof.
  unfold relations. rewrite resolved_cons. intros [[_ Htd] Hargs]. simpl in Htd.
  unfold resolved in Hargs. rewrite Forall_fmap, Forall_forall in Hargs.
  unfold setId. rewrite assign_items_fix.
  - simpl. unfold getitem. rewrite Htd. by destruct f.
  - intros nr argid Hel. exact (Hargs _ Hel).
Qed.

Lemma Function_setId_Raise m f e : setId m f = Raise e → e = KeyError.
Proof.
  unfold setId.
  destruct (assign_items m _ _) eqn:E; simpl.
  - raises_KeyError. discriminate.
  - intros [= <-]. by eapply assign_items_Raise.
Qed.

(** What a resolved function holds for the argument number [nr]. *)
Lemma Function_resolved_argument m f nr argid :
  resolved m (relations f) → argumentId f !! nr = Some argid →
  is_Some (argument f !! nr) ∧ m !! argid = argument f !! nr.
Proof.
  unfold relations. rewrite resolved_cons. intros [_ Hargs] Hnr.
  unfold resolved in Hargs. rewrite Forall_fmap, Forall_forall in Hargs.
  apply elem_of_map_to_list in Hnr. exact (Hargs _ Hnr).
Qed.

End function_records.

(** ** Rewriting a configuration *)

Section configuration.
Import Configuration.
Implicit Types (m : IdMapT) (cfg : Configuration.t) (args : list Variable_.t).

Lemma present_Ok {A} (l : list (option A)) (xs : list A) :
  present l = Ok xs ↔ l = Some <$> xs.
Proof.
  unfold present. rewrite for_each_Forall2. split.
  - induction 1 as [|[x|] y l ys Hxy _ IH]; simpl; [done| |done].
    injection Hxy as ->. by rewrite IH.
  - intros ->. induction xs; constructor; auto.
Qed.

Lemma set_id_map_inv cfg args cfg' args' :
  set_id_map cfg args = Ok (cfg', args') →
  ∃ m, build_IdMap cfg args = Ok m
    ∧ Forall2 (λ x y, Token.setId m x = Ok y) (tokenlist cfg) (tokenlist cfg')
    ∧ Forall2 (λ x y, Scope.setId m x = Ok y) (scopes cfg) (scopes cfg')
    ∧ Forall2 (λ x y, setId_item m x = Ok y) (functions cfg) (functions cfg')
    ∧ Forall2 (λ x y, Variable_.setId m x = Ok y) (variables cfg) (variables cfg')
    ∧ Forall2 (λ x y, Variable_.setId m x = Ok y) args args'
    ∧ valueflow cfg' = valueflow cfg
    ∧ name cfg' = name cfg
    ∧ directives cfg' = directives cfg
    ∧ standards cfg' = standards cfg.
Proof.
  unfold set_id_map. intros H.
  apply bind_Ok in H as (m & Hm & H).
  apply bind_Ok in H as (tl & Htl%for_each_Forall2 & H).
  apply bind_Ok in H as (sc & Hsc%for_each_Forall2 & H).
  apply bind_Ok in H as (fs & Hfs%for_each_Forall2 & H).
  apply bind_Ok in H as (vs & Hvs%for_each_Forall2 & H).
  apply bind_Ok in H as (ar & Har%for_each_Forall2 & H).
  injection H as <- <-. exists m. simpl. repeat split; done.
Qed.

Lemma bind_relations {A} (rel : A → list Relation) m (l l' : list A) :
  Forall2 (λ x y, (rel y).*1 = (rel x).*1 ∧ resolved m (rel y)) l l' →
  (l' ≫= rel).*1 = (l ≫= rel).*1 ∧ resolved m (l' ≫= rel).
Proof.
  induction 1 as [|x y l l' [Hk Hr] _ [IHk IHr]]; [by split; [|constructor]|].
  rewrite !bind_cons, !fmap_app, Hk, IHk, resolved_app. done.
Qed.

Lemma setId_item_Ok m o o' :
  setId_item m o = Ok o' →
  ∃ f f', o = Some f ∧ o' = Some f' ∧ Function_.setId m f = Ok f'.
Proof.
  destruct o as [f|]; simpl; [|done].
  intros (f' & H & ->)%fmap_Ok. eauto.
Qed.

(** The identifiers of the records, and so the entries of the table, are
    the same before and after the rewriting. *)
Lemma set_id_map_entries cfg args cfg' args' :
  set_id_map cfg args = Ok (cfg', args') →
  all_entries cfg' args' = all_entries cfg args.
Proof.
  intros (m & Hm & Htl & Hsc & Hfs & Hvs & Har & Hvf & _)%set_id_map_inv.
  unfold build_IdMap in Hm. apply fmap_Ok in Hm as (es & Hes & _).
  unfold all_entries in *.
  apply bind_Ok in Hes as (fs & Hfs0 & Hes).
  apply bind_Ok in Hes as (vfs & Hvfs & _).
  rewrite Hfs0, Hvf, Hvfs. simpl.
  apply present_Ok in Hfs0.
  assert (∃ fs', functions cfg' = Some <$> fs'
                 ∧ Forall2 (λ x y, Function_.Id y = Function_.Id x) fs fs')
    as (fs' & Hfs' & Hids).
  { rewrite Hfs0 in Hfs. clear -Hfs. revert Hfs.
    generalize (functions cfg'). induction fs as [|f fs IH]; intros l H.
    - inversion H. exists []. split; [done|constructor].
    - inversion H as [|? o' ? l' Ho Hl]; subst.
      apply setId_item_Ok in Ho as (? & f' & [= <-] & -> & Hf).
      destruct (IH _ Hl) as (fs' & -> & ?). exists (f' :: fs').
      split; [done|]. constructor; [|done].
      by apply Function_setId_Ok in Hf as [? _]. }
  apply present_Ok in Hfs'. rewrite Hfs'. simpl. do 2 f_equal.
  - apply entries_ext. eapply Forall2_impl; [exact Htl|].
    by intros ?? [? _]%Token_setId_Ok.
  - f_equal.
    { apply entries_ext. eapply Forall2_impl; [exact Hsc|].
      by intros ?? [? _]%Scope_setId_Ok. }
    f_equal; [by apply entries_ext|]. f_equal.
    { apply entries_ext. eapply Forall2_impl; [exact Hvs|].
      by intros ?? [? _]%Variable_setId_Ok. }
    f_equal. apply entries_ext. eapply Forall2_impl; [exact Har|].
    by intros ?? [? _]%Variable_setId_Ok.
Qed.

(** After the rewriting every record holds, for each of its identifiers, what
    the table has for it; the identifiers themselves are unchanged. *)
Lemma set_id_map_resolved cfg args cfg' args' m :
  build_IdMap cfg args = Ok m →
  set_id_map cfg args = Ok (cfg', args') →
  (all_relations cfg' args').*1 = (all_relations cfg args).*1
  ∧ resolved m (all_relations cfg' args').
Proof.
  intros Hm (m' & Hm' & Htl & Hsc & Hfs & Hvs & Har & _)%set_id_map_inv.
  assert (m' = m) as -> by congruence.
  unfold all_relations.
  destruct (bind_relations Token.relations m (tokenlist cfg) (tokenlist cfg'))
    as [K1 R1].
  { eapply Forall2_impl; [exact Htl|]. by intros ?? (_ & ? & ?)%Token_setId_Ok. }
  destruct (bind_relations Scope.relations m (scopes cfg) (scopes cfg'))
    as [K2 R2].
  { eapply Forall2_impl; [exact Hsc|]. by intros ?? (_ & ? & ?)%Scope_setId_Ok. }
  destruct (bind_relations (from_option Function_.relations []) m
              (functions cfg) (functions cfg')) as [K3 R3].
  { eapply Forall2_impl; [exact Hfs|].
    intros ?? (f & f' & -> & -> & Hf)%setId_item_Ok. simpl.
    by apply Function_setId_Ok in Hf as (_ & _ & ? & ?). }
  destruct (bind_relations Variable_.relations m (variables cfg) (variables cfg'))
    as [K4 R4].
  { eapply Forall2_impl; [exact Hvs|].
    by intros ?? (_ & ? & ?)%Variable_setId_Ok. }
  destruct (bind_relations Variable_.relations m args args') as [K5 R5].
  { eapply Forall2_impl; [exact Har|].
    by intros ?? (_ & ? & ?)%Variable_setId_Ok. }
  rewrite !fmap_app, K1, K2, K3, K4, K5, !resolved_app. done.
Qed.

End configuration.

Section resolver.
Import Configuration.
Implicit Types (m : IdMapT) (cfg : Configuration.t) (args : list Variable_.t).

Lemma linked_Id k i t : Token.Id (linked k i t) = Token.Id t.
Proof. unfold linked. by repeat case_decide. Qed.

Lemma linked_relations k i t : Token.relations (linked k i t) = Token.relations t.
Proof. unfold linked. by repeat case_decide. Qed.

Lemma imap_bind {A B} (f : nat → A → A) (g : A → list B) (l : list A) :
  (∀ i x, g (f i x) = g x) → imap f l ≫= g = l ≫= g.
Proof.
  revert f. induction l as [|x l IH]; intros f Hf; [done|].
  rewrite imap_cons, !bind_cons, Hf, IH; [done|]. intros; apply Hf.
Qed.

Lemma set_tokens_links_entries cfg args :
  all_entries (set_tokens_links cfg) args = all_entries cfg args.
Proof.
  unfold all_entries. simpl. rewrite link_tokens_imap.
  replace (entries Token.Id RefToken (imap (linked (length (tokenlist cfg)))
                                           (tokenlist cfg)))
    with (entries Token.Id RefToken (tokenlist cfg)); [done|].
  apply list_eq; intros i. rewrite !entries_lookup, list_lookup_imap.
  destruct (tokenlist cfg !! i); simpl; [|done]. by rewrite linked_Id.
Qed.

Lemma set_tokens_links_relations cfg args :
  all_relations (set_tokens_links cfg) args = all_relations cfg args.
Proof.
  unfold all_relations. simpl. rewrite link_tokens_imap.
  rewrite imap_bind; [done|]. intros; apply linked_relations.
Qed.

Lemma set_tokens_links_build cfg args :
  build_IdMap (set_tokens_links cfg) args = build_IdMap cfg args.
Proof. unfold build_IdMap. by rewrite set_tokens_links_entries. Qed.

Lemma build_IdMap_entries cfg args es :
  all_entries cfg args = Ok es → build_IdMap cfg args = Ok (update IdMap0 es).
Proof. unfold build_IdMap. by intros ->. Qed.

(** Once the table is built, the rewriting raises nothing but [KeyError]. *)
Lemma set_id_map_Raise cfg args m e :
  build_IdMap cfg args = Ok m →
  set_id_map cfg args = Raise e → e = KeyError.
Proof.
  intros Hm. unfold set_id_map. rewrite Hm. simpl.
  unfold build_IdMap in Hm. apply fmap_Ok in Hm as (es & Hes & _).
  unfold all_entries in Hes. apply bind_Ok in Hes as (fs & Hfs%present_Ok & _).
  destruct (for_each (Token.setId m) _) eqn:E1; simpl;
    [|intros [= <-]; eapply for_each_only_raises; [|exact E1];
      apply Forall_forall; intros; by eapply Token_setId_Raise].
  destruct (for_each (Scope.setId m) _) eqn:E2; simpl;
    [|intros [= <-]; eapply for_each_only_raises; [|exact E2];
      apply Forall_forall; intros; by eapply Scope_setId_Raise].
  destruct (for_each (setId_item m) _) eqn:E3; simpl.
  2:{ intros [= <-]. eapply for_each_only_raises; [|exact E3].
      rewrite Hfs. apply Forall_fmap, Forall_forall. intros f _ e'. simpl.
      destruct (Function_.setId m f) eqn:Ef; simpl; [done|].
      intros [= <-]. by eapply Function_setId_Raise. }
  destruct (for_each (Variable_.setId m) (variables cfg)) eqn:E4; simpl;
    [|intros [= <-]; eapply for_each_only_raises; [|exact E4];
      apply Forall_forall; intros; by eapply Variable_setId_Raise].
  destruct (for_each (Variable_.setId m) args) eqn:E5; simpl; [done|].
  intros [= <-]. eapply for_each_only_raises; [|exact E5].
  apply Forall_forall; intros; by eapply Variable_setId_Raise.
Qed.


(** C3: when a record of the configuration carries, in a relational
    attribute, an identifier string that the lookup table of the configuration
    does not have, the resolution raises [KeyError]. *)
Theorem dangling_identifier_raises cfg args m s :
  build_IdMap cfg args = Ok m →
  Some s ∈ (all_relations cfg args).*1 →
  m !! Some s = None →
  setIdMap cfg args = Raise KeyError.
Proof.
  intros Hm Hin Hnone. unfold setIdMap.
  rewrite <- set_tokens_links_build in Hm.
  rewrite <- (set_tokens_links_relations cfg args) in Hin.
  destruct (set_id_map (set_tokens_links cfg) args) as [[cfg' args']|e] eqn:E.
  - destruct (set_id_map_resolved _ _ _ _ _ Hm E) as [Hk Hres].
    destruct (resolved_keys _ _ _ _ Hres Hk Hin) as [r Hr]. congruence.
  - f_equal. by eapply set_id_map_Raise.
Qed.

End resolver.

Section resolver_runs.
Import Configuration.
Implicit Types (m : IdMapT) (cfg : Configuration.t) (args : list Variable_.t).

Lemma argument_entry cfg args es j v :
  all_entries cfg args = Ok es → args !! j = Some v →
  (Variable_.Id v, Some (RefArgument j)) ∈ es.
Proof.
  unfold all_entries. intros H Hj.
  apply bind_Ok in H as (fs & _ & H). apply bind_Ok in H as (vfs & _ & [= <-]).
  rewrite !elem_of_app. do 4 right. left.
  apply elem_of_entries. eauto.
Qed.

(** C5: at the closing event of a configuration, a function whose [arg]
    element named, for the position [nr], the identifier of a variable held
    in the argument bag gets that variable as its argument [nr], wherever the
    variable stands in the document, provided the identifier is issued to no
    other record. *)
Theorem forward_argument_resolves (st st' : Iter.t) node cfg cfg' args'
    es i f nr vid j v :
  tag node = "dump" →
  Iter.cfg st = Some cfg →
  Iter.step st (ev_end, node) = Ok (st', Some (cfg', args')) →
  all_entries cfg (Iter.cfg_arguments st) = Ok es →
  functions cfg !! i = Some (Some f) →
  Function_.argumentId f !! nr = Some (Some vid) →
  Iter.cfg_arguments st !! j = Some v →
  Variable_.Id v = Some vid →
  (∀ r, (Some vid, r) ∈ es → r = Some (RefArgument j)) →
  ∃ f' v',
    functions cfg' !! i = Some (Some f')
    ∧ Function_.argument f' !! nr = Some (Some (RefArgument j))
    ∧ args' !! j = Some v'
    ∧ Variable_.Id v' = Some vid.
Proof.
  intros Htag Hcfg Hstep Hes Hf Hnr Hj Hid Huniq.
  unfold Iter.step in Hstep. rewrite Htag, Hcfg in Hstep. simpl in Hstep.
  apply bind_Ok in Hstep as ([c a] & Hset & [= _ <- <-]).
  set (args := Iter.cfg_arguments st) in *.
  unfold setIdMap in Hset.
  assert (Hm : build_IdMap (set_tokens_links cfg) args = Ok (update IdMap0 es)).
  { rewrite set_tokens_links_build. by apply build_IdMap_entries. }
  destruct (set_id_map_inv _ _ _ _ Hset)
    as (m & Hm' & _ & _ & Hfs & _ & Har & _).
  assert (m = update IdMap0 es) as -> by congruence.
  simpl in Hfs.
  destruct (Forall2_lookup_l _ _ _ _ _ Hfs Hf) as (o' & Ho' & Hitem).
  apply setId_item_Ok in Hitem as (? & f' & [= <-] & -> & Hsetf).
  destruct (Forall2_lookup_l _ _ _ _ _ Har Hj) as (v' & Hv' & Hsetv).
  exists f', v'. split; [done|].
  apply Function_setId_Ok in Hsetf as (_ & Hargid & _ & Hres).
  rewrite <- Hargid in Hnr.
  destruct (Function_resolved_argument _ _ _ _ Hres Hnr) as [_ Hlook].
  split; [|split; [done|]].
  - rewrite <- Hlook. apply update_lookup_in.
    + rewrite <- Hid. by eapply argument_entry.
    + exact Huniq.
  - apply Variable_setId_Ok in Hsetv as [-> _]. done.
Qed.

Lemma Token_setId_links m t t' :
  Token.setId m t = Ok t' →
  Token.previous t' = Token.previous t ∧ Token.next t' = Token.next t.
Proof.
  unfold Token.setId. intros H. getitems H. by injection H as <-.
Qed.

Lemma set_previous_id p t : Token.previous t = p → Token.set_previous p t = t.
Proof. intros <-. by destruct t. Qed.

Lemma set_next_id n t : Token.next t = n → Token.set_next n t = t.
Proof. intros <-. by destruct t. Qed.

(** Rewriting the references of linked tokens leaves them linked. *)
Lemma link_tokens_fix m (tl tl' : list Token.t) :
  Forall2 (λ x y, Token.setId m x = Ok y) (link_tokens tl) tl' →
  link_tokens tl' = tl'.
Proof.
  intros H. pose proof (Forall2_length _ _ _ H) as Hlen.
  rewrite link_tokens_imap in H, Hlen. rewrite length_imap in Hlen.
  rewrite link_tokens_imap. apply list_eq; intros i.
  rewrite list_lookup_imap. destruct (tl' !! i) as [t'|] eqn:E; [|done].
  simpl. f_equal.
  destruct (Forall2_lookup_r _ _ _ _ _ H E) as (t1 & Ht1 & Hset).
  rewrite list_lookup_imap in Ht1.
  destruct (tl !! i) as [t|] eqn:Et; [|done]. injection Ht1 as <-.
  pose proof (lookup_lt_Some _ _ _ Et) as Hi.
  apply Token_setId_links in Hset as [Hp Hn].
  unfold linked in *. rewrite <- Hlen.
  rewrite decide_True in Hp, Hn |- * by done. simpl in Hp.
  case_decide; simpl in Hn.
  - rewrite (set_next_id _ _ Hn). by apply set_previous_id.
  - by apply set_previous_id.
Qed.

Lemma for_each_again {A} (F : A → result A) (l l' : list A) :
  (∀ x y, F x = Ok y → F y = Ok y) →
  Forall2 (λ x y, F x = Ok y) l l' → for_each F l' = Ok l'.
Proof.
  intros HF H. apply for_each_id.
  induction H; constructor; eauto.
Qed.

(** C6: when the resolution has run on a configuration and its argument bag,
    running it again on the records it left gives these same records. *)
Theorem setIdMap_idempotent cfg args cfg' args' :
  setIdMap cfg args = Ok (cfg', args') →
  setIdMap cfg' args' = Ok (cfg', args').
Proof.
  unfold setIdMap. intros Hset.
  pose proof (set_id_map_entries _ _ _ _ Hset) as Hent.
  destruct (set_id_map_inv _ _ _ _ Hset)
    as (m & Hm & Htl & Hsc & Hfs & Hvs & Har & _).
  assert (Hlinks : set_tokens_links cfg' = cfg').
  { unfold set_tokens_links. simpl in Htl.
    rewrite (link_tokens_fix _ _ _ Htl). by destruct cfg'. }
  rewrite Hlinks. unfold set_id_map.
  assert (build_IdMap cfg' args' = Ok m) as ->.
  { unfold build_IdMap in *. by rewrite Hent. }
  simpl.
  rewrite (for_each_again _ _ _ (λ x y H,
             Token_setId_fix m y (proj2 (proj2 (Token_setId_Ok m x y H)))) Htl).
  simpl.
  rewrite (for_each_again _ _ _ (λ x y H,
             Scope_setId_fix m y (proj2 (proj2 (Scope_setId_Ok m x y H)))) Hsc).
  simpl.
  assert (Hitem : ∀ x y, setId_item m x = Ok y → setId_item m y = Ok y).
  { intros x y (f & f' & -> & -> & Hf)%setId_item_Ok. simpl.
    apply Function_setId_Ok in Hf as (_ & _ & _ & Hres).
    by rewrite Function_setId_fix. }
  rewrite (for_each_again _ _ _ Hitem Hfs). simpl.
  rewrite (for_each_again _ _ _ (λ x y H,
             Variable_setId_fix m y
               (proj2 (proj2 (Variable_setId_Ok m x y H)))) Hvs).
  simpl.
  rewrite (for_each_again _ _ _ (λ x y H,
             Variable_setId_fix m y
               (proj2 (proj2 (Variable_setId_Ok m x y H)))) Har).
  simpl. by destruct cfg'.
Qed.

End resolver_runs.

(** ** getArguments *)

Section arguments.
Implicit Types (tokenlist : list Token.t).

Lemma attr_is_true o v : attr_is o v = true ↔ o = Some v.
Proof. unfold attr_is. apply bool_decide_eq_true. Qed.

Lemma attr_is_false o v : attr_is o v = false ↔ o ≠ Some v.
Proof. unfold attr_is. apply bool_decide_eq_false. Qed.

Lemma getArgumentsRecursive_leaf fuel tokenlist i t arguments :
  tokenlist !! i = Some t → Token.str t ≠ Some "," →
  getArgumentsRecursive (S fuel) tokenlist (Some (RefToken i)) arguments
  = Ok (arguments ++ [i]).
Proof.
  intros Hi Hstr. simpl. unfold token_at. rewrite Hi. simpl.
  by apply attr_is_false in Hstr as ->.
Qed.

Lemma getArgumentsRecursive_comma fuel tokenlist i t arguments :
  tokenlist !! i = Some t → Token.str t = Some "," →
  getArgumentsRecursive (S fuel) tokenlist (Some (RefToken i)) arguments
  = getArgumentsRecursive fuel tokenlist (Token.astOperand1 t) arguments
    ≫= getArgumentsRecursive fuel tokenlist (Token.astOperand2 t).
Proof.
  intros Hi Hstr. simpl. unfold token_at. rewrite Hi. simpl.
  by apply attr_is_true in Hstr as ->.
Qed.

(** On a finite argument expression the recursion returns, given fuel for
    the depth of the expression. *)
Lemma getArgumentsRecursive_total tokenlist tok :
  arg_tree tokenlist tok →
  ∃ fuel0, ∀ fuel arguments, fuel0 ≤ fuel →
    ∃ l, getArgumentsRecursive fuel tokenlist tok arguments = Ok l.
Proof.
  induction 1 as [|i t Hi Hstr|i t Hi Hstr _ [f1 IH1] _ [f2 IH2]].
  - exists 1. intros [|fuel] arguments ?; [lia|]. simpl. eauto.
  - exists 1. intros [|fuel] arguments ?; [lia|].
    erewrite getArgumentsRecursive_leaf by done. eauto.
  - exists (S (f1 `max` f2)). intros [|fuel] arguments ?; [lia|].
    erewrite getArgumentsRecursive_comma by done.
    destruct (IH1 fuel arguments) as [l1 ->]; [lia|]. simpl.
    apply IH2. lia.
Qed.

(** C9: for a name token [f] whose next token is [(], where the second
    operand of [(] is a comma token whose operands are the tokens [a] and
    [b], themselves no commas, [getArguments(f)] returns the list [a, b]. *)
Theorem getArguments_two_arguments tokenlist ftok p tp c tc a ta b tb fuel :
  Token.isName ftok = true →
  Token.next ftok = Some p →
  tokenlist !! p = Some tp →
  Token.str tp = Some "(" →
  Token.astOperand2 tp = Some (RefToken c) →
  tokenlist !! c = Some tc →
  Token.str tc = Some "," →
  Token.astOperand1 tc = Some (RefToken a) →
  Token.astOperand2 tc = Some (RefToken b) →
  tokenlist !! a = Some ta →
  Token.str ta ≠ Some "," →
  tokenlist !! b = Some tb →
  Token.str tb ≠ Some "," →
  2 ≤ fuel →
  getArguments fuel tokenlist ftok = Ok (Some [a; b]).
Proof.
  intros Hname Hnext Hp Hparen Hop2 Hc Hcomma Ha Hb Hta Hsa Htb Hsb Hfuel.
  unfold getArguments. rewrite Hname, Hnext. simpl.
  unfold token_at. rewrite Hp. simpl.
  apply attr_is_true in Hparen as ->. simpl. rewrite Hop2.
  destruct fuel as [|[|fuel]]; [lia|lia|].
  erewrite getArgumentsRecursive_comma by done. rewrite Ha, Hb.
  rewrite (getArgumentsRecursive_leaf fuel tokenlist a ta [] Hta Hsa).
  cbn [mbind result_bind].
  by rewrite (getArgumentsRecursive_leaf fuel tokenlist b tb _ Htb Hsb).
Qed.

(** C10: [getArguments(ftok)] returns [None] exactly when [ftok] is no name
    token, or has no next token, or its next token is not [(]; otherwise,
    the argument expression below the [(] being a finite tree of tokens, it
    returns a list. *)
Theorem getArguments_None_iff tokenlist ftok :
  let guard :=
    Token.isName ftok = false
    ∨ Token.next ftok = None
    ∨ ∃ n nt, Token.next ftok = Some n ∧ tokenlist !! n = Some nt
              ∧ Token.str nt ≠ Some "(" in
  (∀ fuel, getArguments fuel tokenlist ftok = Ok None ↔ guard)
  ∧ (∀ n nt, ¬ guard →
       Token.next ftok = Some n → tokenlist !! n = Some nt →
       arg_tree tokenlist (Token.astOperand2 nt) →
       ∃ fuel0, ∀ fuel, fuel0 ≤ fuel →
         ∃ l, getArguments fuel tokenlist ftok = Ok (Some l)).
Proof.
  intros guard. subst guard. split.
  - intros fuel. unfold getArguments.
    destruct (Token.isName ftok); simpl; [|by split; [left|]].
    destruct (Token.next ftok) as [n|]; [|by split; [right; left|]].
    unfold token_at. destruct (tokenlist !! n) as [nt|] eqn:En; simpl.
    + destruct (attr_is (Token.str nt) "(") eqn:Es; simpl.
      * apply attr_is_true in Es. split.
        -- by intros (? & _ & ?)%fmap_Ok.
        -- intros [?|[?|(n' & nt' & [= <-] & Hn' & Hne)]]; try done.
           congruence.
      * apply attr_is_false in Es. split; [|done].
        intros _. right; right. eauto.
    + split; [done|].
      intros [?|[?|(n' & nt' & [= <-] & Hn' & Hne)]]; congruence.
  - intros n nt Hguard Hnext Hn Htree.
    destruct (getArgumentsRecursive_total _ _ Htree) as [fuel0 Hrec].
    exists fuel0. intros fuel Hfuel. unfold getArguments.
    destruct (Token.isName ftok); simpl; [|by destruct Hguard; left].
    rewrite Hnext. unfold token_at. rewrite Hn. simpl.
    destruct (attr_is (Token.str nt) "(") eqn:Es; simpl.
    + destruct (Hrec fuel [] Hfuel) as [l ->]. simpl. eauto.
    + apply attr_is_false in Es. destruct Hguard. right; right. eauto.
Qed.

End arguments.

(** ** The resolver on the sample configuration *)



Lemma dangling_identifier_raises_sample :
  Configuration.build_IdMap dangling_cfg (Iter.cfg_arguments sample_state)
    = Ok dangling_table
  ∧ Some "s9" ∈ (Configuration.all_relations dangling_cfg
                   (Iter.cfg_arguments sample_state)).*1
  ∧ dangling_table !! Some "s9" = None
  ∧ Configuration.setIdMap dangling_cfg (Iter.cfg_arguments sample_state)
    = Raise KeyError.
Proof.
  assert (H1 : Configuration.build_IdMap dangling_cfg
                 (Iter.cfg_arguments sample_state) = Ok dangling_table)
    by (vm_compute; reflexivity).
  assert (H2 : Some "s9" ∈ (Configuration.all_relations dangling_cfg
                              (Iter.cfg_arguments sample_state)).*1)
    by (apply (bool_decide_unpack _); vm_compute; exact I).
  assert (H3 : dangling_table !! Some "s9" = None)
    by (vm_compute; reflexivity).
  split; [exact H1|]. split; [exact H2|]. split; [exact H3|].
  exact (dangling_identifier_raises dangling_cfg
           (Iter.cfg_arguments sample_state) dangling_table "s9" H1 H2 H3).
Defined.

Lemma forward_argument_resolves_sample :
  ∃ f' v',
    Configuration.functions sample_yield.1 !! 0 = Some (Some f')
    ∧ Function_.argument f' !! 1%Z = Some (Some (RefArgument 0))
    ∧ sample_yield.2 !! 0 = Some v'
    ∧ Variable_.Id v' = Some "v1".
Proof.
  apply (forward_argument_resolves sample_state sample_closed
           (elem "dump" [] []) sample_cfg sample_yield.1 sample_yield.2
           sample_entries 0 sample_function 1%Z "v1" 0 sample_argument).
  - reflexivity.
  - vm_compute; reflexivity.
  - vm_compute; reflexivity.
  - vm_compute; reflexivity.
  - vm_compute; reflexivity.
  - vm_compute; reflexivity.
  - vm_compute; reflexivity.
  - reflexivity.
  - intros r Hin. unfold sample_entries in Hin.
    repeat (apply elem_of_cons in Hin as [Hin|Hin];
            [first [discriminate Hin | by injection Hin]|]).
    by apply elem_of_nil in Hin.
Defined.

Lemma setIdMap_idempotent_sample :
  Configuration.setIdMap sample_cfg (Iter.cfg_arguments sample_state)
    = Ok sample_yield
  ∧ Configuration.setIdMap sample_yield.1 sample_yield.2 = Ok sample_yield.
Proof.
  assert (H : Configuration.setIdMap sample_cfg
                (Iter.cfg_arguments sample_state)
              = Ok (sample_yield.1, sample_yield.2))
    by (vm_compute; reflexivity).
  split; [exact H|].
  exact (setIdMap_idempotent sample_cfg (Iter.cfg_arguments sample_state)
           sample_yield.1 sample_yield.2 H).
Defined.

Lemma getArguments_two_arguments_sample :
  getArguments 2 sample_tokens sample_f = Ok (Some [2; 4]).
Proof.
  eapply (getArguments_two_arguments sample_tokens sample_f 1 _ 3 _ 2 _ 4 _ 2).
  - reflexivity.
  - reflexivity.
  - reflexivity.
  - reflexivity.
  - reflexivity.
  - reflexivity.
  - reflexivity.
  - reflexivity.
  - reflexivity.
  - reflexivity.
  - discriminate.
  - reflexivity.
  - discriminate.
  - lia.
Defined.

Lemma getArguments_None_iff_sample :
  getArguments 2 sample_tokens sample_paren = Ok None
  ∧ ∃ fuel0, ∀ fuel, fuel0 ≤ fuel →
      ∃ l, getArguments fuel sample_tokens sample_f = Ok (Some l).
Proof.
  split.
  - apply (getArguments_None_iff sample_tokens sample_paren). by left.
  - destruct (getArguments_None_iff sample_tokens sample_f) as [_ H].
    apply (H 1 sample_paren).
    + intros [Hn|[Hn|(n & nt & Hn & Hl & Hs)]]; [discriminate..|].
      injection Hn as <-. injection Hl as <-. by apply Hs.
    + reflexivity.
    + reflexivity.
    + apply (arg_comma sample_tokens 3 (default sample_f (sample_tokens !! 3)));
        [reflexivity|reflexivity| |].
      * by apply (arg_leaf sample_tokens 2 (default sample_f (sample_tokens !! 2))).
      * by apply (arg_leaf sample_tokens 4 (default sample_f (sample_tokens !! 4))).
Defined.

(** ** Routing of the [var] elements *)

Section routing.
Import Iter.



(** What the reader does at an [arg] element and at the end of a [function]
    element: the identifier named for the position goes into the function
    under construction, which is appended to the configuration when it
    closes. *)
Lemma step_arg st node nr f :
  tag node = "arg" →
  int (get node "nr") = Ok nr →
  cfg_function st = Some f →
  step st (ev_start, node)
  = Ok (set_cfg_function
          (Some (Function_.set_argumentId nr (get node "variable") f)) st,
        None).
Proof.
  intros Htag Hnr Hf. unfold step, is_ev. rewrite Htag, Hnr, Hf. reflexivity.
Qed.

Lemma step_function_end st node c :
  tag node = "function" →
  cfg st = Some c →
  step st (ev_end, node)
  = Ok (set_cfg_function None
          (set_cfg (Some (Configuration.append_function (cfg_function st) c))
                   st),
        None).
Proof. intros Htag Hc. unfold step, is_ev. rewrite Htag, Hc. reflexivity. Qed.




End routing.

(** ** Value records *)

Section values.

Lemma int_if_set_Ok o v :
  int_if_set o = Ok v →
  ∀ s, o = Some s → s ≠ "" → ∃ z, parse_int s = Some z ∧ v = PyInt z.
Proof.
  intros H s -> Hs. unfold int_if_set, truthy in H.
  replace (String.eqb s "") with false in H
    by (symmetry; by apply String.eqb_neq).
  simpl in H. destruct (parse_int s) as [z|]; [|discriminate H].
  injection H as <-. eauto.
Qed.

Lemma int_if_set_unparsable s :
  s ≠ "" → parse_int s = None → int_if_set (Some s) = Raise ValueError.
Proof.
  intros Hs Hp. unfold int_if_set, truthy.
  replace (String.eqb s "") with false by (symmetry; by apply String.eqb_neq).
  simpl. by rewrite Hp.
Qed.

(** An integer payload that is no integer makes the construction fail. *)
Lemma Value_init_unparsable element s :
  get element "intvalue" = Some s → s ≠ "" → parse_int s = None →
  Value.__init__ element = Raise ValueError.
Proof.
  intros Hg Hs Hp. unfold Value.__init__.
  by rewrite Hg, (int_if_set_unparsable s Hs Hp).
Qed.

(** C8, as the code has it: in a Value record built from a value element, the
    integer payload and the line of the originating condition, when the
    attribute is present and not empty, are the integers that the attribute
    strings denote; the float payload and the container-size payload are the
    attribute strings themselves. *)
Theorem Value_init_typed element v :
  Value.__init__ element = Ok v →
  (∀ s, get element "intvalue" = Some s → s ≠ "" →
     ∃ z, parse_int s = Some z ∧ Value.intvalue v = PyInt z)
  ∧ (∀ s, get element "condition-line" = Some s → s ≠ "" →
       ∃ z, parse_int s = Some z ∧ Value.condition v = PyInt z)
  ∧ Value.floatvalue v = of_attr (get element "floatvalue")
  ∧ Value.containerSize v = of_attr (get element "container-size").
Proof.
  unfold Value.__init__. intros H.
  apply bind_Ok in H as (iv & Hiv & H).
  apply bind_Ok in H as (c & Hc & [= <-]). simpl.
  split; [exact (int_if_set_Ok _ _ Hiv)|].
  split; [exact (int_if_set_Ok _ _ Hc)|]. done.
Qed.

(** A value element with a float payload and a container size: both stay
    strings in the record. *)
Lemma Value_float_and_size_stay_strings :
  ∃ v, Value.__init__ value_float = Ok v
    ∧ Value.floatvalue v = PyStr "1.5"
    ∧ Value.containerSize v = PyStr "3"
    ∧ is_numeric (Value.floatvalue v) = false
    ∧ is_numeric (Value.containerSize v) = false.
Proof. eexists. repeat split. Qed.

Lemma Value_init_typed_sample :
  ∃ v, Value.__init__ value_int = Ok v
    ∧ Value.intvalue v = PyInt 5
    ∧ Value.condition v = PyInt 12.
Proof.
  destruct (Value.__init__ value_int) as [v|] eqn:E; [|discriminate E].
  destruct (Value_init_typed value_int v E) as (Hi & Hc & _).
  exists v. split; [reflexivity|].
  destruct (Hi "5" eq_refl) as (z & Hz & ->); [discriminate|].
  destruct (Hc "12" eq_refl) as (z' & Hz' & ->); [discriminate|].
  split; f_equal.
  - by injection Hz.
  - by injection Hz'.
Defined.

End values.

(** ** The class attributes of CppcheckData *)

(** C7, on the sample document: the second construction leaves, in the
    [rawTokens] and [suppressions] that every instance reads, the raw token
    and the suppression of the document twice. *)
Theorem second_construction_repeats :
  let r1 := CppcheckData.__init__ "a.c.dump" sample_document
              CppcheckData.class_init in
  let r2 := CppcheckData.__init__ "a.c.dump" sample_document r1.1 in
  (∃ d1, r1.2 = Ok d1) ∧ (∃ d2, r2.2 = Ok d2)
  ∧ Token.str <$> CppcheckData.rawTokens r1.1 = [Some "x"]
  ∧ Token.str <$> CppcheckData.rawTokens r2.1 = [Some "x"; Some "x"]
  ∧ Suppression.errorId <$> CppcheckData.suppressions r1.1 = [Some "e1"]
  ∧ Suppression.errorId <$> CppcheckData.suppressions r2.1
    = [Some "e1"; Some "e1"].
Proof.
  simpl. split; [eexists; vm_compute; reflexivity|].
  split; [eexists; vm_compute; reflexivity|].
  repeat split; vm_compute; reflexivity.
Qed.

Section class_attributes.
Import CppcheckData.

Lemma appends_ret {A} (a : A) : appends (ret a) [] [] (Ok a).
Proof. intros [??]. unfold ret. simpl. by rewrite !app_nil_r. Qed.

Lemma appends_lift {A} (r : result A) : appends (lift r) [] [] r.
Proof. intros [??]. unfold lift. simpl. by rewrite !app_nil_r. Qed.

Lemma appends_bind_Ok {A B} (m : M A) (k : A → M B) t1 s1 a t2 s2 r :
  appends m t1 s1 (Ok a) → appends (k a) t2 s2 r →
  appends (bind m k) (t1 ++ t2) (s1 ++ s2) r.
Proof.
  intros Hm Hk c. unfold bind. rewrite Hm, Hk. simpl. by rewrite !app_assoc.
Qed.

Lemma appends_bind_Raise {A B} (m : M A) (k : A → M B) t1 s1 e :
  appends m t1 s1 (Raise e) → appends (bind m k) t1 s1 (Raise e).
Proof. intros Hm c. unfold bind. by rewrite Hm. Qed.

Lemma appends_bind {A B} (m : M A) (k : A → M B) t1 s1 r1 :
  appends m t1 s1 r1 →
  (∀ a, ∃ t2 s2 r, appends (k a) t2 s2 r) →
  ∃ t s r, appends (bind m k) t s r.
Proof.
  intros Hm Hk. destruct r1 as [a|e].
  - destruct (Hk a) as (t2 & s2 & r & Ha). eauto using appends_bind_Ok.
  - eauto using appends_bind_Raise.
Qed.

Lemma appends_rawToken tok : appends (append_rawToken tok) [tok] [] (Ok tt).
Proof. intros [??]. unfold append_rawToken. simpl. by rewrite app_nil_r. Qed.

Lemma appends_suppression x : appends (append_suppression x) [] [x] (Ok tt).
Proof. intros [??]. unfold append_suppression. simpl. by rewrite app_nil_r. Qed.

Lemma read_rawtokens_appends nodes files :
  ∃ t s r, appends (read_rawtokens nodes files) t s r.
Proof.
  revert files. induction nodes as [|node nodes IH]; intros files; simpl.
  - eauto using appends_ret.
  - repeat case_match; [apply IH| |apply IH].
    eapply appends_bind; [apply appends_lift|]. intros tok.
    eapply appends_bind; [apply appends_lift|]. intros ix.
    eapply appends_bind; [apply appends_lift|]. intros f.
    eapply appends_bind; [apply appends_rawToken|]. intros _. apply IH.
Qed.

Lemma read_suppressions_appends nodes :
  ∃ t s r, appends (read_suppressions nodes) t s r.
Proof.
  induction nodes as [|node nodes IH]; simpl.
  - eauto using appends_ret.
  - eapply appends_bind; [apply appends_suppression|]. intros _. apply IH.
Qed.

Lemma scan_appends events l : ∃ t s r, appends (scan events l) t s r.
Proof.
  revert l. induction events as [|[event node] events IH]; intros l; simpl.
  - eauto using appends_ret.
  - repeat case_match; try apply IH; try (by eauto using appends_ret).
    + eapply appends_bind; [apply appends_lift|]. intros p. apply IH.
    + destruct (read_rawtokens_appends (children node) (files l))
        as (t & s & r & Hr).
      eapply appends_bind; [exact Hr|]. intros fs. apply IH.
    + destruct (read_suppressions_appends (children node))
        as (t & s & r & Hr).
      eapply appends_bind; [exact Hr|]. intros _. apply IH.
Qed.

Lemma length_links (toks : list Token.t) (ixs : list nat) :
  length (foldl link_step toks ixs) = length toks.
Proof.
  revert toks. induction ixs as [|i ixs IH]; intros toks; [done|].
  simpl. rewrite IH. unfold link_step. by rewrite !length_alter.
Qed.

(** What a construction leaves in the class attributes: the lists it found,
    with the raw tokens and the suppressions of the document appended. *)
Lemma init_appends filename events :
  ∃ n sups r, ∀ c,
    (__init__ filename events c).2 = r
    ∧ length (rawTokens (__init__ filename events c).1)
      = length (rawTokens c) + n
    ∧ suppressions (__init__ filename events c).1 = suppressions c ++ sups.
Proof.
  destruct (scan_appends events locals_init) as (t & s & r & H).
  destruct r as [l|e].
  - exists (length t), s, (Ok {| filename := filename; platform := self_platform l |}).
    intros c. unfold __init__, bind. rewrite H. simpl.
    rewrite length_links, length_app. done.
  - exists (length t), s, (Raise e).
    intros c. unfold __init__, bind. rewrite H. simpl.
    rewrite length_app. done.
Qed.

(** Two constructions on one document, the first from the class attributes
    as the class statement leaves them: the second doubles both lists. *)
Theorem construction_accumulates filename events :
  let r1 := __init__ filename events class_init in
  let r2 := __init__ filename events r1.1 in
  r2.2 = r1.2
  ∧ length (rawTokens r2.1) = 2 * length (rawTokens r1.1)
  ∧ suppressions r2.1 = suppressions r1.1 ++ suppressions r1.1.
Proof.
  destruct (init_appends filename events) as (n & sups & r & H).
  intros r1 r2. subst r1 r2.
  destruct (H class_init) as (Hr1 & Hn1 & Hs1).
  destruct (H (__init__ filename events class_init).1) as (Hr2 & Hn2 & Hs2).
  rewrite Hr1, Hr2, Hn2, Hn1, Hs2, Hs1. simpl. split; [done|]. split; [lia|done].
Qed.

End class_attributes.

(** ** The configurations that the reader yields *)

Section yields.
Import Iter.

Lemma Token_init_unlinked element t :
  Token.__init__ element = Ok t →
  Token.previous t = None ∧ Token.next t = None.
Proof.
  unfold Token.__init__. intros H.
  repeat (apply bind_Ok in H as (? & _ & H)). by injection H as <-.
Qed.

Lemma doubly_linked_ext (l l' : list Token.t) :
  Forall2 (λ x y, Token.previous y = Token.previous x
                  ∧ Token.next y = Token.next x) l l' →
  doubly_linked l → doubly_linked l'.
Proof.
  intros H (Hpos & _). pose proof (Forall2_length _ _ _ H) as Hlen.
  assert (Hpos' : ∀ i t, l' !! i = Some t →
     Token.previous t = (if i is S j then Some j else None) ∧
     Token.next t = (if decide (S i < length l') then Some (S i) else None)).
  { intros i t' Hi.
    destruct (Forall2_lookup_r _ _ _ _ _ H Hi) as (t & Ht & -> & ->).
    rewrite <- Hlen. by apply Hpos. }
  clear H Hpos Hlen l. unfold doubly_linked.
  split; [exact Hpos'|]. split; [|split; [|split]].
  - intros i j t Hi Hn. destruct (Hpos' _ _ Hi) as [_ Hnext].
    rewrite Hn in Hnext. case_decide; [|done]. injection Hnext as ->.
    destruct (lookup_lt_is_Some_2 l' (S i)) as [u Hu]; [lia|].
    exists u. split; [done|]. by destruct (Hpos' _ _ Hu).
  - intros i j t Hi Hp. destruct (Hpos' _ _ Hi) as [Hprev _].
    rewrite Hp in Hprev. destruct i as [|i]; [done|]. injection Hprev as ->.
    pose proof (lookup_lt_Some _ _ _ Hi) as Hlt.
    destruct (lookup_lt_is_Some_2 l' i) as [u Hu]; [lia|].
    exists u. split; [done|]. destruct (Hpos' _ _ Hu) as [_ ->].
    rewrite decide_True by lia. done.
  - intros t Ht. rewrite head_lookup in Ht. by destruct (Hpos' _ _ Ht).
  - intros t Ht. rewrite last_lookup in Ht.
    pose proof (lookup_lt_Some _ _ _ Ht) as Hlt.
    destruct (Hpos' _ _ Ht) as [_ ->]. rewrite decide_False by lia. done.
Qed.

Lemma setIdMap_doubly_linked c args c' args' :
  Forall (λ t, Token.next t = None) (Configuration.tokenlist c) →
  Configuration.setIdMap c args = Ok (c', args') →
  doubly_linked (Configuration.tokenlist c').
Proof.
  intros Hfresh Hset. unfold Configuration.setIdMap in Hset.
  destruct (set_id_map_inv _ _ _ _ Hset) as (m & _ & Htl & _). simpl in Htl.
  eapply doubly_linked_ext.
  - eapply Forall2_impl; [exact Htl|]. intros x y Hxy.
    by apply Token_setId_links in Hxy.
  - apply link_tokens_doubly_linked. intros t Ht.
    rewrite Forall_forall in Hfresh. apply Hfresh.
    rewrite last_lookup in Ht. by eapply list_elem_of_lookup_2.
Qed.

Lemma unlinked_set_cfg st c :
  Forall (λ t, Token.next t = None) (Configuration.tokenlist c) →
  unlinked (set_cfg (Some c) st).
Proof. intros H c' [= <-]. exact H. Qed.

Ltac same_tokens Hst Hc :=
  apply unlinked_set_cfg; simpl; exact (Hst _ Hc).

Lemma step_unlinked st ev st' y :
  unlinked st → step st ev = Ok (st', y) →
  unlinked st'
  ∧ ∀ c' args', y = Some (c', args') →
      doubly_linked (Configuration.tokenlist c').
Proof.
  intros Hst Hstep. destruct ev as [event node]. unfold step in Hstep.
  repeat case_match; simplify_eq;
    repeat match goal with
    | H : _ ≫= _ = Ok _ |- _ =>
        let a := fresh "a" in let Ha := fresh "Ha" in
        apply bind_Ok in H as (a & Ha & H)
    | H : attr_of _ = Ok _ |- _ =>
        unfold attr_of in H; case_match; simplify_eq
    end; simplify_eq;
    try (split; [|by intros ?? [=]]);
    try (by intros c [=]);
    try exact Hst;
    try (match goal with Hc : cfg st = Some _ |- _ => same_tokens Hst Hc end).
  - apply unlinked_set_cfg. constructor.
  - split; [by intros c [=]|]. intros c' args' [= ->].
    eapply setIdMap_doubly_linked; [|eassumption]. by apply Hst.
  - apply unlinked_set_cfg. simpl. rewrite Forall_app.
    split; [by eapply Hst|].
    constructor; [|constructor].
    match goal with Ht : Token.__init__ _ = Ok _ |- _ =>
      exact (proj2 (Token_init_unlinked _ _ Ht)) end.
  - unfold on_var in *.
    match goal with H : _ ≫= _ = Ok _ |- _ =>
      apply bind_Ok in H as (var & Hvar & H) end.
    repeat case_match; simplify_eq; try exact Hst.
    match goal with H : _ ≫= _ = Ok _ |- _ =>
      apply bind_Ok in H as (c & Hc & H) end.
    unfold attr_of in Hc. case_match; simplify_eq.
    match goal with Hc : cfg st = Some _ |- _ => same_tokens Hst Hc end.
Qed.

Lemma run_unlinked st events y :
  unlinked st → y ∈ (run st events).1 →
  doubly_linked (Configuration.tokenlist y.1).
Proof.
  revert st. induction events as [|ev events IH]; intros st Hst; simpl.
  - by intros ?%elem_of_nil.
  - destruct (step st ev) as [[st' y']|e] eqn:E; simpl;
      [|by intros ?%elem_of_nil].
    destruct (step_unlinked _ _ _ _ Hst E) as [Hst' Hy].
    destruct (run st' events) as [ys r] eqn:Er. simpl.
    intros [Hin|Hin]%elem_of_app.
    + destruct y' as [[c' args']|]; simpl in Hin; [|by apply elem_of_nil in Hin].
      apply list_elem_of_singleton in Hin as ->. by eapply Hy.
    + apply (IH st' Hst'). by rewrite Er.
Qed.

(** Every configuration that [iterconfigurations] yields has its tokens in
    one doubly linked list. *)
Theorem yielded_tokens_doubly_linked events y :
  y ∈ (iterconfigurations events).1 →
  doubly_linked (Configuration.tokenlist y.1).
Proof. apply run_unlinked. by intros c [=]. Qed.

End yields.

(** * Further properties *)

(** ** The kinds of a token *)

(** X1: a token that [Token.__init__] builds has at most one of the kinds
    name, number, string, char and operator; the finer flags come with their
    kind only, at most one operator flag is set, a number is not both an
    integer and a float, and only a string has a length. *)
Theorem Token_init_kinds element t :
  Token.__init__ element = Ok t →
  kind_count t ≤ 1
  ∧ op_kind_count t ≤ 1
  ∧ (op_kind_count t = 1 → Token.isOp t = true)
  ∧ (Token.isInt t = true ∨ Token.isFloat t = true → Token.isNumber t = true)
  ∧ ¬ (Token.isInt t = true ∧ Token.isFloat t = true)
  ∧ (Token.isUnsigned t = true ∨ Token.isSigned t = true →
       Token.isName t = true)
  ∧ (is_Some (Token.strlen t) → Token.isString t = true).
Proof.
  unfold Token.__init__. intros H.
  apply bind_Ok in H as (len & Hlen & H).
  apply bind_Ok in H as (vid & _ & H).
  apply bind_Ok in H as (vt & _ & H).
  apply bind_Ok in H as (ln & _ & H).
  apply bind_Ok in H as (col & _ & [= <-]).
  unfold kind_count, op_kind_count. simpl.
  assert (Hstr : is_Some len → bool_decide (get element "type" = Some "string") = true).
  { intros Hs. destruct (bool_decide (get element "type" = Some "string")); [done|].
    injection Hlen as <-. by destruct Hs. }
  clear Hlen.
  destruct (get element "type") as [ty|]; simpl in *.
  2:{ repeat split; try lia; try (intros [?|?]; done); try (intros [??]; done).
      exact Hstr. }
  repeat case_bool_decide; simplify_eq; simpl;
    repeat (destruct (truthy _); simpl);
    repeat split; try lia; try done; try (intros [?|?]; done);
    try (intros [??]; done); try exact Hstr.
Qed.

Lemma Token_init_kinds_sample :
  ∃ t, Token.__init__ plus_element = Ok t
    ∧ kind_count t ≤ 1
    ∧ op_kind_count t ≤ 1
    ∧ (op_kind_count t = 1 → Token.isOp t = true)
    ∧ (Token.isInt t = true ∨ Token.isFloat t = true → Token.isNumber t = true)
    ∧ ¬ (Token.isInt t = true ∧ Token.isFloat t = true)
    ∧ (Token.isUnsigned t = true ∨ Token.isSigned t = true →
         Token.isName t = true)
    ∧ (is_Some (Token.strlen t) → Token.isString t = true).
Proof.
  destruct (Token.__init__ plus_element) as [t|] eqn:E; [|discriminate E].
  exists t. split; [reflexivity|].
  exact (Token_init_kinds plus_element t E).
Defined.

(** ** What the resolution changes and what it leaves *)

Section frame.
Import Configuration.

Lemma Token_setId_text m t t' :
  Token.setId m t = Ok t' → Token_text t' = Token_text t.
Proof.
  unfold Token.setId. intros H. getitems H. by injection H as <-.
Qed.

Lemma linked_text k i t : Token_text (linked k i t) = Token_text t.
Proof. unfold linked. by repeat case_decide. Qed.

Lemma Forall2_fmap_eq {A B} (f : A → B) (l l' : list A) :
  Forall2 (λ x y, f y = f x) l l' → f <$> l' = f <$> l.
Proof.
  induction 1 as [|x y l l' Hxy _ IH]; [done|].
  by rewrite !fmap_cons, Hxy, IH.
Qed.

Lemma setId_item_Id m o o' :
  setId_item m o = Ok o' →
  (Function_.Id <$> o') = (Function_.Id <$> o)
  ∧ (Function_.argumentId <$> o') = (Function_.argumentId <$> o)
  ∧ is_Some o'.
Proof.
  intros (f & f' & -> & -> & Hf)%setId_item_Ok. simpl.
  apply Function_setId_Ok in Hf as (-> & -> & _). eauto.
Qed.

Lemma setIdMap_token_text cfg args cfg' args' :
  setIdMap cfg args = Ok (cfg', args') →
  Token_text <$> tokenlist cfg' = Token_text <$> tokenlist cfg.
Proof.
  unfold setIdMap. intros H.
  destruct (set_id_map_inv _ _ _ _ H) as (m & _ & Htl & _). simpl in Htl.
  transitivity (Token_text <$> link_tokens (tokenlist cfg)).
  - apply Forall2_fmap_eq. eapply Forall2_impl; [exact Htl|].
    intros ??. apply Token_setId_text.
  - rewrite link_tokens_imap. apply list_eq; intros i.
    rewrite !list_lookup_fmap, list_lookup_imap.
    destruct (tokenlist cfg !! i); simpl; [|done]. by rewrite linked_text.
Qed.

(** X2: the resolution rewrites references only.  It keeps the name, the
    directives, the value lists and the standards of the configuration, the
    number and the order of the records of every list, the identifier, text
    and location of every token, and the identifiers of the scopes,
    functions and variables. *)
Theorem setIdMap_frame cfg args cfg' args' :
  setIdMap cfg args = Ok (cfg', args') →
  name cfg' = name cfg
  ∧ directives cfg' = directives cfg
  ∧ valueflow cfg' = valueflow cfg
  ∧ standards cfg' = standards cfg
  ∧ Token_text <$> tokenlist cfg' = Token_text <$> tokenlist cfg
  ∧ Scope.Id <$> scopes cfg' = Scope.Id <$> scopes cfg
  ∧ (λ o : option Function_.t, Function_.Id <$> o) <$> functions cfg'
    = (λ o : option Function_.t, Function_.Id <$> o) <$> functions cfg
  ∧ Variable_.Id <$> variables cfg' = Variable_.Id <$> variables cfg
  ∧ Variable_.Id <$> args' = Variable_.Id <$> args.
Proof.
  intros H0. pose proof (setIdMap_token_text _ _ _ _ H0) as Htext.
  unfold setIdMap in H0.
  destruct (set_id_map_inv _ _ _ _ H0)
    as (m & _ & Htl & Hsc & Hfs & Hvs & Har & Hvf & Hn & Hd & Hst).
  simpl in *. repeat split; try done.
  - apply Forall2_fmap_eq. eapply Forall2_impl; [exact Hsc|].
    by intros ?? [? _]%Scope_setId_Ok.
  - apply Forall2_fmap_eq. eapply Forall2_impl; [exact Hfs|].
    by intros ?? [? _]%setId_item_Id.
  - apply Forall2_fmap_eq. eapply Forall2_impl; [exact Hvs|].
    by intros ?? [? _]%Variable_setId_Ok.
  - apply Forall2_fmap_eq. eapply Forall2_impl; [exact Har|].
    by intros ?? [? _]%Variable_setId_Ok.
Qed.

Lemma setIdMap_frame_sample :
  Token_text <$> tokenlist sample_yield.1 = Token_text <$> tokenlist sample_cfg
  ∧ Variable_.Id <$> sample_yield.2
    = Variable_.Id <$> Iter.cfg_arguments sample_state.
Proof.
  assert (H : setIdMap sample_cfg (Iter.cfg_arguments sample_state)
              = Ok (sample_yield.1, sample_yield.2))
    by (vm_compute; reflexivity).
  destruct (setIdMap_frame _ _ _ _ H) as (_ & _ & _ & _ & Ht & _ & _ & _ & Ha).
  split; [exact Ht | exact Ha].
Defined.

End frame.

(** ** When the resolution succeeds *)

Section completeness.
Import Configuration.
Implicit Types (m : IdMapT).

Lemma for_each_total {A B} (f : A → result B) (l : list A) :
  Forall (λ x, ∃ y, f x = Ok y) l → ∃ l', for_each f l = Ok l'.
Proof.
  induction 1 as [|x l [y Hy] _ [l' IH]]; [by exists []|].
  exists (y :: l'). simpl. by rewrite Hy, IH.
Qed.

Lemma getitem_total m k : is_Some (m !! k) → ∃ r, getitem m k = Ok r.
Proof. intros [r Hr]. exists r. by apply getitem_Ok. Qed.

Ltac known_key H :=
  apply H; unfold Token.relations, Scope.relations, Variable_.relations,
    Function_.relations, ValueType.relations;
  rewrite ?fmap_app, ?elem_of_app; simpl; try left; repeat constructor.

Lemma Token_setId_total m t :
  (∀ k, k ∈ (Token.relations t).*1 → is_Some (m !! k)) →
  ∃ t', Token.setId m t = Ok t'.
Proof.
  intros H. unfold Token.setId.
  destruct (getitem_total m (Token.scopeId t)) as [? ->]; [known_key H|].
  destruct (getitem_total m (Token.linkId t)) as [? ->]; [known_key H|].
  destruct (getitem_total m (Token.variableId t)) as [? ->]; [known_key H|].
  destruct (getitem_total m (Token.functionId t)) as [? ->]; [known_key H|].
  destruct (getitem_total m (Token.valuesId t)) as [? ->]; [known_key H|].
  destruct (getitem_total m (Token.typeScopeId t)) as [? ->]; [known_key H|].
  destruct (getitem_total m (Token.astParentId t)) as [? ->]; [known_key H|].
  destruct (getitem_total m (Token.astOperand1Id t)) as [? ->]; [known_key H|].
  destruct (getitem_total m (Token.astOperand2Id t)) as [? ->]; [known_key H|].
  simpl. destruct (Token.valueType t) as [vt|] eqn:Evt; simpl; [|eauto].
  unfold ValueType.setId.
  destruct (getitem_total m (ValueType.typeScopeId vt)) as [? ->]; [|simpl; eauto].
  apply H. unfold Token.relations. rewrite Evt, fmap_app, elem_of_app.
  right. simpl. constructor.
Qed.

Lemma Scope_setId_total m s :
  (∀ k, k ∈ (Scope.relations s).*1 → is_Some (m !! k)) →
  ∃ s', Scope.setId m s = Ok s'.
Proof.
  intros H. unfold Scope.setId.
  destruct (getitem_total m (Scope.bodyStartId s)) as [? ->]; [known_key H|].
  destruct (getitem_total m (Scope.bodyEndId s)) as [? ->]; [known_key H|].
  destruct (getitem_total m (Scope.nestedInId s)) as [? ->]; [known_key H|].
  destruct (getitem_total m (Scope.functionId s)) as [? ->]; [known_key H|].
  simpl. eauto.
Qed.

Lemma Variable_setId_total m v :
  (∀ k, k ∈ (Variable_.relations v).*1 → is_Some (m !! k)) →
  ∃ v', Variable_.setId m v = Ok v'.
Proof.
  intros H. unfold Variable_.setId.
  destruct (getitem_total m (Variable_.nameTokenId v)) as [? ->]; [known_key H|].
  destruct (getitem_total m (Variable_.typeStartTokenId v)) as [? ->];
    [known_key H|].
  destruct (getitem_total m (Variable_.typeEndTokenId v)) as [? ->];
    [known_key H|].
  destruct (getitem_total m (Variable_.scopeId v)) as [? ->]; [known_key H|].
  simpl. eauto.
Qed.

Lemma assign_items_total m items a :
  (∀ x, x ∈ items → is_Some (m !! x.2)) →
  ∃ a', Function_.assign_items m items a = Ok a'.
Proof.
  revert a. induction items as [|[nr argid] items IH]; intros a H; [by eexists|].
  simpl. destruct (getitem_total m argid) as [r ->]; [apply (H (nr, argid)); by left|].
  simpl. apply IH. intros x Hx. apply H. by right.
Qed.

Lemma Function_setId_total m f :
  (∀ k, k ∈ (Function_.relations f).*1 → is_Some (m !! k)) →
  ∃ f', Function_.setId m f = Ok f'.
Proof.
  intros H. unfold Function_.setId.
  destruct (assign_items_total m (map_to_list (Function_.argumentId f))
              (Function_.argument f)) as [a' ->].
  { intros x Hx. apply H. unfold Function_.relations. simpl. right.
    apply list_elem_of_fmap. exists (x.2, Function_.argument f !! x.1).
    split; [done|]. apply list_elem_of_fmap. eauto. }
  simpl. destruct (getitem_total m (Function_.tokenDefId f)) as [? ->].
  { apply H. unfold Function_.relations. simpl. by left. }
  simpl. eauto.
Qed.

Lemma keys_bind {A} (rel : A → list Relation) (l : list A) x k :
  x ∈ l → k ∈ (rel x).*1 → k ∈ (l ≫= rel).*1.
Proof.
  intros Hx (kv & -> & Hkv)%list_elem_of_fmap.
  apply list_elem_of_fmap. exists kv. split; [done|].
  apply list_elem_of_bind. eauto.
Qed.

Lemma set_id_map_total cfg args m :
  build_IdMap cfg args = Ok m →
  (∀ k, k ∈ (all_relations cfg args).*1 → is_Some (m !! k)) →
  ∃ y, set_id_map cfg args = Ok y.
Proof.
  intros Hm Hk. unfold set_id_map. rewrite Hm. simpl.
  pose proof Hm as Hm0. unfold build_IdMap in Hm0.
  apply fmap_Ok in Hm0 as (es & Hes & _). unfold all_entries in Hes.
  apply bind_Ok in Hes as (fs & Hfs%present_Ok & _).
  unfold all_relations in Hk. rewrite !fmap_app in Hk.
  destruct (for_each_total (Token.setId m) (tokenlist cfg)) as [tl' ->].
  { apply Forall_forall. intros t Ht. apply Token_setId_total.
    intros k Hin. apply Hk. rewrite !elem_of_app. left. by eapply keys_bind. }
  simpl.
  destruct (for_each_total (Scope.setId m) (scopes cfg)) as [sc' ->].
  { apply Forall_forall. intros s Hs. apply Scope_setId_total.
    intros k Hin. apply Hk. rewrite !elem_of_app. right; left.
    by eapply keys_bind. }
  simpl.
  destruct (for_each_total (setId_item m) (functions cfg)) as [fs' ->].
  { apply Forall_forall. intros o Ho.
    assert (∃ f, o = Some f) as [f ->].
    { rewrite Hfs in Ho. apply list_elem_of_fmap in Ho as (f & -> & _). eauto. }
    simpl. destruct (Function_setId_total m f) as [f' ->]; [|simpl; eauto].
    intros k Hin. apply Hk. rewrite !elem_of_app. right; right; left.
    by apply (keys_bind (from_option Function_.relations []) _ (Some f)). }
  simpl.
  destruct (for_each_total (Variable_.setId m) (variables cfg)) as [vs' ->].
  { apply Forall_forall. intros v Hv. apply Variable_setId_total.
    intros k Hin. apply Hk. rewrite !elem_of_app. do 3 right; left.
    by eapply keys_bind. }
  simpl.
  destruct (for_each_total (Variable_.setId m) args) as [ar' ->].
  { apply Forall_forall. intros v Hv. apply Variable_setId_total.
    intros k Hin. apply Hk. rewrite !elem_of_app. do 4 right.
    by eapply keys_bind. }
  simpl. eauto.
Qed.

(** X3: the resolution of a configuration succeeds exactly when the table
    can be built (no [None] among the functions and the value lists) and
    every identifier that a record carries in a relational attribute is a key
    of the table. *)
Theorem setIdMap_succeeds_iff (cfg : Configuration.t) (args : list Variable_.t) :
  (∃ y, setIdMap cfg args = Ok y)
  ↔ ∃ m, build_IdMap cfg args = Ok m
       ∧ ∀ k, k ∈ (all_relations cfg args).*1 → is_Some (m !! k).
Proof.
  unfold setIdMap. split.
  - intros [[cfg' args'] H].
    destruct (set_id_map_inv _ _ _ _ H) as (m & Hm & _).
    exists m. rewrite <- set_tokens_links_build. split; [done|].
    intros k Hk. rewrite <- (set_tokens_links_relations cfg args) in Hk.
    destruct (set_id_map_resolved _ _ _ _ _ Hm H) as [Hkeys Hres].
    by eapply resolved_keys.
  - intros (m & Hm & Hk). apply (set_id_map_total _ _ m).
    + by rewrite set_tokens_links_build.
    + by rewrite set_tokens_links_relations.
Qed.

(** X4: when several records are issued one identifier, the table holds for
    it the record written last, in the order tokens, scopes, functions,
    variables, argument variables, value lists. *)
Theorem table_last_wins (cfg : Configuration.t) (args : list Variable_.t)
    es1 k v es2 :
  all_entries cfg args = Ok (es1 ++ (k, v) :: es2) →
  k ∉ es2.*1 →
  ∃ m, build_IdMap cfg args = Ok m ∧ m !! k = Some v.
Proof.
  intros Hes Hk. exists (update IdMap0 (es1 ++ (k, v) :: es2)).
  split; [by apply build_IdMap_entries|].
  rewrite update_app. change ((k, v) :: es2) with ([(k, v)] ++ es2).
  rewrite update_app, update_lookup_notin by done.
  simpl. apply lookup_insert_eq.
Qed.

(** The value list "a1" shadows the token "a1". *)
Lemma table_last_wins_sample :
  ∃ m, build_IdMap shared_id_cfg (Iter.cfg_arguments shared_id_state) = Ok m
    ∧ m !! Some "a1" = Some (Some (RefValues 0)).
Proof.
  apply (table_last_wins shared_id_cfg (Iter.cfg_arguments shared_id_state)
           [(Some "a1", Some (RefToken 0)); (Some "a2", Some (RefToken 1))]
           (Some "a1") (Some (RefValues 0)) []).
  - vm_compute; reflexivity.
  - apply not_elem_of_nil.
Defined.

(** X5: after the resolution of a function its argument dictionary has an
    entry for the positions it had before and for the positions that the [arg]
    elements named, and for no other position; what it held for a position
    that no [arg] element named is unchanged. *)
Theorem Function_setId_positions m f f' :
  Function_.setId m f = Ok f' →
  dom (Function_.argument f')
  = dom (Function_.argument f) ∪ dom (Function_.argumentId f)
  ∧ ∀ nr, Function_.argumentId f !! nr = None →
      Function_.argument f' !! nr = Function_.argument f !! nr.
Proof.
  unfold Function_.setId. intros H.
  apply bind_Ok in H as (a' & Ha & H).
  apply bind_Ok in H as (r & _ & [= <-]). simpl.
  apply assign_items_Ok in Ha as [Hin Hout]; [|apply NoDup_fst_map_to_list].
  assert (Hnone : ∀ nr, Function_.argumentId f !! nr = None →
                        a' !! nr = Function_.argument f !! nr).
  { intros nr Hnr. apply Hout. intros (x & -> & Hx)%list_elem_of_fmap.
    destruct x as [nr argid]. apply elem_of_map_to_list in Hx.
    simpl in Hnr. congruence. }
  split; [|exact Hnone].
  apply set_eq. intros nr. rewrite elem_of_union, !elem_of_dom.
  destruct (Function_.argumentId f !! nr) as [argid|] eqn:E.
  - apply elem_of_map_to_list in E. destruct (Hin _ _ E) as (r' & _ & ->).
    split; [right|]; eauto.
  - rewrite (Hnone nr E). split; [by left|]. intros [?|[? ?]]; done.
Qed.

Lemma Function_setId_positions_sample :
  ∃ f', Configuration.functions sample_yield.1 !! 0 = Some (Some f')
    ∧ dom (Function_.argument f') = {[ 1%Z ]}.
Proof.
  assert (∃ f', Function_.setId (update IdMap0 sample_entries) sample_function
                = Ok f'
                ∧ Configuration.functions sample_yield.1 !! 0 = Some (Some f'))
    as (f' & Hset & Hf).
  { eexists. split; vm_compute; reflexivity. }
  exists f'. split; [exact Hf|].
  destruct (Function_setId_positions _ _ _ Hset) as [-> _].
  vm_compute. reflexivity.
Defined.

End completeness.

(** ** The reader, event by event *)

Section reader.
Import Iter.

(** Decompose a successful round of the loop into its branch. *)
Ltac step_branches H :=
  unfold step in H;
  repeat case_match; simplify_eq;
  repeat match goal with
  | H : _ ≫= _ = Ok _ |- _ =>
      let a := fresh "a" in let Ha := fresh "Ha" in
      apply bind_Ok in H as (a & Ha & H)
  | H : attr_of _ = Ok _ |- _ =>
      unfold attr_of in H; case_match; simplify_eq
  end; simplify_eq.

(** A round yields a configuration at the closing event of a [dump] element
    and at no other event; what it yields is the configuration under
    construction, resolved, and the round starts the next one with no
    configuration and an empty argument bag. *)
Lemma step_yield st ev st' y :
  step st ev = Ok (st', Some y) →
  is_dump_end ev = true
  ∧ ∃ c, cfg st = Some c
       ∧ Configuration.setIdMap c (cfg_arguments st) = Ok y
       ∧ st' = set_cfg_arguments [] (set_cfg None st).
Proof.
  intros H. destruct ev as [event node]. step_branches H.
  unfold is_dump_end. simpl.
  match goal with Ht : String.eqb _ _ = true |- _ => rewrite Ht end.
  split; [done|]. eauto.
Qed.

Lemma step_dump_end st ev st' y :
  is_dump_end ev = true → step st ev = Ok (st', y) → is_Some y.
Proof.
  destruct ev as [event node]. unfold is_dump_end. simpl.
  intros [Htag Hev%bool_decide_eq_true]%andb_true_iff H. subst event.
  unfold step in H. rewrite Htag in H.
  apply bind_Ok in H as (c & _ & H).
  apply bind_Ok in H as (y' & _ & [= _ <-]). eauto.
Qed.

(** X6: on a document that is read to its end, the configurations yielded
    are as many as the closing events of [dump] elements. *)
Theorem yields_count st events ys st' :
  run st events = (ys, Ok st') →
  length ys = length (filter (λ ev, is_dump_end ev = true) events).
Proof.
  revert st ys. induction events as [|ev events IH]; intros st ys; simpl.
  - by intros [= <- _].
  - destruct (step st ev) as [[st1 y]|e] eqn:E; [|by intros [= _ ?]].
    destruct (run st1 events) as [ys1 r1] eqn:Er. intros [= <- ->].
    rewrite length_app, (IH _ _ Er), filter_cons.
    destruct (is_dump_end ev) eqn:Ed.
    + destruct (step_dump_end _ _ _ _ Ed E) as [y' ->].
      rewrite decide_True by done. reflexivity.
    + destruct y as [y|].
      * apply step_yield in E as [? _]. congruence.
      * rewrite decide_False by done. reflexivity.
Qed.

Lemma yields_count_sample :
  length (iterconfigurations (sample_events ++ [sample_close])).1 = 1.
Proof.
  destruct (iterconfigurations (sample_events ++ [sample_close]))
    as [ys [st'|e]] eqn:E; [|by vm_compute in E].
  simpl. rewrite (yields_count Iter.init _ ys st' E). reflexivity.
Defined.

Lemma run_yield_inv st events y :
  y ∈ (run st events).1 → ∃ c args, Configuration.setIdMap c args = Ok y.
Proof.
  revert st. induction events as [|ev events IH]; intros st; simpl.
  - by intros ?%elem_of_nil.
  - destruct (step st ev) as [[st1 y1]|e] eqn:E; simpl;
      [|by intros ?%elem_of_nil].
    destruct (run st1 events) as [ys1 r1] eqn:Er. simpl.
    intros [Hin|Hin]%elem_of_app.
    + destruct y1 as [y1|]; simpl in Hin; [|by apply elem_of_nil in Hin].
      apply list_elem_of_singleton in Hin as ->.
      apply step_yield in E as (_ & c & _ & Hset & _). eauto.
    + apply (IH st1). by rewrite Er.
Qed.

(** X7: in every configuration that [iterconfigurations] yields, each
    record holds for each of its relational attributes what the table built
    from the records of that configuration has for the identifier: there is
    no identifier left unresolved, also when a later configuration of the
    document fails. *)
Theorem yielded_is_resolved events y :
  y ∈ (iterconfigurations events).1 →
  ∃ m, Configuration.build_IdMap y.1 y.2 = Ok m
    ∧ resolved m (Configuration.all_relations y.1 y.2).
Proof.
  intros (c & args & Hset)%run_yield_inv. destruct y as [c' args'].
  unfold Configuration.setIdMap in Hset.
  destruct (set_id_map_inv _ _ _ _ Hset) as (m & Hm & _).
  exists m. simpl. split.
  - unfold Configuration.build_IdMap in *.
    by rewrite (set_id_map_entries _ _ _ _ Hset).
  - by destruct (set_id_map_resolved _ _ _ _ _ Hm Hset).
Qed.

Lemma yielded_is_resolved_sample :
  ∃ m, Configuration.build_IdMap sample_yield.1 sample_yield.2 = Ok m
    ∧ resolved m (Configuration.all_relations sample_yield.1 sample_yield.2).
Proof.
  apply (yielded_is_resolved (sample_events ++ [sample_close]) sample_yield).
  assert (H : (iterconfigurations (sample_events ++ [sample_close])).1
              = [sample_yield]) by (vm_compute; reflexivity).
  rewrite H. by left.
Defined.

End reader.

Section document_order.
Import Iter.

Ltac step_branches H :=
  unfold step in H;
  repeat case_match; simplify_eq;
  repeat match goal with
  | H : _ ≫= _ = Ok _ |- _ =>
      let a := fresh "a" in let Ha := fresh "Ha" in
      apply bind_Ok in H as (a & Ha & H)
  | H : attr_of _ = Ok _ |- _ =>
      unfold attr_of in H; case_match; simplify_eq
  end; simplify_eq.

Lemma run_app st e1 e2 :
  run st (e1 ++ e2)
  = match run st e1 with
    | (ys1, Ok st1) => let '(ys2, r) := run st1 e2 in (ys1 ++ ys2, r)
    | (ys1, Raise e) => (ys1, Raise e)
    end.
Proof.
  revert st. induction e1 as [|ev e1 IH]; intros st; simpl.
  - by destruct (run st e2).
  - destruct (step st ev) as [[st1 y]|e]; [|done].
    rewrite IH. destruct (run st1 e1) as [ys1 [st2|e]]; [|done].
    destruct (run st2 e2). by rewrite app_assoc.
Qed.

Lemma run_cons st ev events :
  run st (ev :: events)
  = match step st ev with
    | Raise e => ([], Raise e)
    | Ok (st', y) => let '(ys, r) := run st' events in (option_list y ++ ys, r)
    end.
Proof. reflexivity. Qed.

Lemma step_dump_start st d :
  tag d = "dump" →
  step st (ev_start, d)
  = Ok (set_cfg (Some (Configuration.__init__ (get d "cfg"))) st, None).
Proof. intros Hd. unfold step. by rewrite Hd. Qed.

Lemma Token_init_head element t :
  Token.__init__ element = Ok t →
  (Token.Id t, Token.str t) = (get element "id", get element "str").
Proof.
  unfold Token.__init__. intros H.
  repeat (apply bind_Ok in H as (? & _ & H)). by injection H as <-.
Qed.

(** Inside a configuration, a round that is no event of a [dump] element
    yields nothing, keeps a configuration under construction, and adds to
    its tokens the token of the element when the event is the start of a
    [token] element. *)
Lemma step_tokens st ev st' y c :
  tag ev.2 ≠ "dump" → cfg st = Some c → step st ev = Ok (st', y) →
  y = None
  ∧ ∃ c', cfg st' = Some c'
      ∧ heads (Configuration.tokenlist c')
        = heads (Configuration.tokenlist c) ++ token_heads [ev].
Proof.
  intros Htag Hc H. destruct ev as [event node]. simpl in Htag.
  apply String.eqb_neq in Htag.
  unfold token_heads, is_token_start. rewrite filter_cons, filter_nil. simpl.
  unfold step in H. rewrite Htag in H.
  destruct (is_ev node event "token" ev_start) eqn:Etok.
  - assert (Htok : tag node = "token" ∧ event = ev_start).
    { unfold is_ev in Etok. apply andb_true_iff in Etok as [?%String.eqb_eq ?%bool_decide_eq_true]. done. }
    destruct Htok as [Htk ->]. unfold is_ev in H. rewrite Htk in H. simpl in H.
    rewrite Hc in H. simpl in H.
    apply bind_Ok in H as (tok & Htok & [= <- <-]).
    split; [done|]. eexists. split; [reflexivity|]. simpl.
    unfold heads. rewrite fmap_app. simpl.
    by rewrite (Token_init_head _ _ Htok).
  - rewrite decide_False by done. simpl. rewrite app_nil_r.
    repeat case_match; simplify_eq;
      repeat match goal with
      | H : _ ≫= _ = Ok _ |- _ =>
          let a := fresh "a" in let Ha := fresh "Ha" in
          apply bind_Ok in H as (a & Ha & H)
      | H : attr_of _ = Ok _ |- _ =>
          unfold attr_of in H; case_match; simplify_eq
      end; simplify_eq; try (split; [done|]; eexists; split; [eassumption || reflexivity|]; reflexivity).
    unfold on_var in *.
    match goal with H : _ ≫= _ = Ok _ |- _ =>
      apply bind_Ok in H as (var & Hvar & H) end.
    repeat case_match; simplify_eq;
      repeat match goal with
      | H : _ ≫= _ = Ok _ |- _ =>
          let a := fresh "a" in let Ha := fresh "Ha" in
          apply bind_Ok in H as (a & Ha & H)
      | H : attr_of _ = Ok _ |- _ =>
          unfold attr_of in H; case_match; simplify_eq
      end; simplify_eq;
      split; try done; eexists; (split; [eassumption || reflexivity|]); reflexivity.
Qed.

Lemma token_heads_cons ev events :
  token_heads (ev :: events) = token_heads [ev] ++ token_heads events.
Proof.
  unfold token_heads. rewrite !filter_cons, filter_nil.
  by case_decide.
Qed.

Lemma run_tokens st events ys st' c :
  Forall (λ ev, tag ev.2 ≠ "dump") events →
  cfg st = Some c → run st events = (ys, Ok st') →
  ys = []
  ∧ ∃ c', cfg st' = Some c'
      ∧ heads (Configuration.tokenlist c')
        = heads (Configuration.tokenlist c) ++ token_heads events.
Proof.
  intros Hall. revert st c ys.
  induction Hall as [|ev events Hev _ IH]; intros st c ys Hc; simpl.
  - intros [= <- <-]. split; [done|]. exists c. by rewrite app_nil_r.
  - destruct (step st ev) as [[st1 y]|e] eqn:E; [|by intros [= _ ?]].
    destruct (step_tokens _ _ _ _ _ Hev Hc E) as (-> & c1 & Hc1 & Hh1).
    destruct (run st1 events) as [ys1 r1] eqn:Er. intros [= <- ->].
    destruct (IH _ _ _ Hc1 Er) as (-> & c' & Hc' & Hh').
    split; [done|]. exists c'. split; [done|].
    by rewrite Hh', Hh1, (token_heads_cons ev events), app_assoc.
Qed.

(** X8: the tokens of a yielded configuration are the [token] elements
    between the opening and the closing event of its [dump] element, in the
    order of the document, each with the identifier and the text of its
    element. *)
Theorem tokens_in_document_order st d body d' ys st' :
  tag d = "dump" → tag d' = "dump" →
  Forall (λ ev, tag ev.2 ≠ "dump") body →
  run st ((ev_start, d) :: body ++ [(ev_end, d')]) = (ys, Ok st') →
  ∃ c args, ys = [(c, args)]
    ∧ heads (Configuration.tokenlist c) = token_heads body.
Proof.
  intros Hd Hd' Hbody.
  rewrite run_cons, (step_dump_start _ _ Hd), run_app.
  destruct (run _ body) as [ys1 [st1|e]] eqn:Er; [|by intros [= _ ?]].
  destruct (run_tokens
              (set_cfg (Some (Configuration.__init__ (get d "cfg"))) st)
              body ys1 st1 (Configuration.__init__ (get d "cfg"))
              Hbody eq_refl Er) as (-> & c1 & Hc1 & Hh1).
  rewrite run_cons. unfold step. rewrite Hd', Hc1. simpl.
  destruct (Configuration.setIdMap c1 (cfg_arguments st1)) as [[c args]|e] eqn:Es;
    simpl; [|by intros [= _ ?]].
  intros [= <- _]. exists c, args. split; [done|].
  simpl in Hh1. rewrite <- Hh1.
  pose proof (setIdMap_token_text _ _ _ _ Es) as Ht.
  assert (Hh : ∀ tl, heads tl
                     = (λ x, (x.1.1.1.1.1, x.1.1.1.1.2)) <$> (Token_text <$> tl)).
  { intros tl. unfold heads. by rewrite <- list_fmap_compose. }
  by rewrite !Hh, Ht.
Qed.

End document_order.

Section outside.
Import Iter.

(** X9: with no configuration under construction, that is outside every
    [dump] element, the closing event of a [dump], [function] or [values]
    element and the start of a [directive], [token] or [scope] element raise
    [AttributeError], whatever the element carries. *)
Theorem outside_configuration_raises st ev :
  cfg st = None → needs_cfg ev = true →
  step st ev = Raise AttributeError.
Proof.
  intros Hc. destruct ev as [event node]. unfold needs_cfg. simpl.
  rewrite !orb_true_iff. unfold is_ev.
  intros H. unfold step, is_ev.
  repeat (destruct H as [H|H]);
    apply andb_true_iff in H as [Htag%String.eqb_eq Hev%bool_decide_eq_true];
    rewrite Htag; subst event; simpl; by rewrite Hc.
Qed.

Lemma outside_configuration_raises_sample :
  step Iter.init (ev_start, plus_element) = Raise AttributeError.
Proof.
  apply (outside_configuration_raises Iter.init (ev_start, plus_element)).
  - reflexivity.
  - reflexivity.
Defined.

End outside.

Lemma tokens_in_document_order_sample :
  ∃ c args,
    (Iter.run Iter.init
       ((ev_start, elem "dump" [("cfg", "")] []) :: sample_body
        ++ [sample_close])).1 = [(c, args)]
    ∧ heads (Configuration.tokenlist c) = token_heads sample_body.
Proof.
  destruct (Iter.run Iter.init
              ((ev_start, elem "dump" [("cfg", "")] []) :: sample_body
               ++ [sample_close])) as [ys [st'|e]] eqn:E;
    [|by vm_compute in E].
  assert (Hbody : Forall (λ ev : Event * Element, tag ev.2 ≠ "dump") sample_body)
    by (apply (bool_decide_unpack _); vm_compute; exact I).
  destruct (tokens_in_document_order Iter.init
              (elem "dump" [("cfg", "")] []) sample_body (elem "dump" [] [])
              ys st' eq_refl eq_refl Hbody E) as (c & args & -> & Hh).
  exists c, args. split; [reflexivity | exact Hh].
Defined.

(** ** The arguments of a call, for every nesting *)

Section flattening.
Implicit Types (tokenlist : list Token.t).

Lemma flat_returns tokenlist tok l :
  flat tokenlist tok l →
  ∃ fuel0, ∀ fuel arguments, fuel0 ≤ fuel →
    getArgumentsRecursive fuel tokenlist tok arguments = Ok (arguments ++ l).
Proof.
  induction 1 as [|i t Hi Hstr|i t l1 l2 Hi Hstr _ [f1 IH1] _ [f2 IH2]].
  - exists 1. intros [|fuel] arguments ?; [lia|]. simpl. by rewrite app_nil_r.
  - exists 1. intros [|fuel] arguments ?; [lia|].
    by erewrite getArgumentsRecursive_leaf.
  - exists (S (f1 `max` f2)). intros [|fuel] arguments ?; [lia|].
    erewrite getArgumentsRecursive_comma by done.
    rewrite IH1 by lia. simpl. rewrite IH2 by lia. by rewrite app_assoc.
Qed.

Lemma returns_flat fuel tokenlist tok arguments l :
  getArgumentsRecursive fuel tokenlist tok arguments = Ok l →
  ∃ l', l = arguments ++ l' ∧ flat tokenlist tok l'.
Proof.
  revert tok arguments l. induction fuel as [|fuel IH]; intros tok arguments l;
    [done|]. simpl.
  destruct tok as [[i| | | | |]|]; try done.
  - unfold token_at. destruct (tokenlist !! i) as [t|] eqn:Ei; [|done]. simpl.
    destruct (attr_is (Token.str t) ",") eqn:Es.
    + apply attr_is_true in Es. intros H.
      apply bind_Ok in H as (l1 & H1 & H2).
      destruct (IH _ _ _ H1) as (l1' & -> & Hf1).
      destruct (IH _ _ _ H2) as (l2' & -> & Hf2).
      exists (l1' ++ l2'). split; [by rewrite app_assoc|].
      by eapply flat_comma.
    + apply attr_is_false in Es. intros [= <-].
      exists [i]. split; [done|]. by eapply flat_leaf.
  - intros [= <-]. exists []. split; [by rewrite app_nil_r|]. constructor.
Qed.

Lemma flat_leaves tokenlist tok l :
  flat tokenlist tok l →
  Forall (λ i, ∃ t, tokenlist !! i = Some t ∧ Token.str t ≠ Some ",") l.
Proof.
  induction 1; [constructor| |by apply Forall_app].
  constructor; [eauto|constructor].
Qed.

(** X10: for a name token followed by [(], [getArguments] returns the tokens
    of the argument expression from left to right, for every nesting of the
    comma tokens: none for [f()], one for [f(a)], and so on, once the bound
    on the recursion covers the depth of the expression. *)
Theorem getArguments_flattens tokenlist ftok p tp l :
  Token.isName ftok = true →
  Token.next ftok = Some p →
  tokenlist !! p = Some tp →
  Token.str tp = Some "(" →
  flat tokenlist (Token.astOperand2 tp) l →
  ∃ fuel0, ∀ fuel, fuel0 ≤ fuel →
    getArguments fuel tokenlist ftok = Ok (Some l).
Proof.
  intros Hname Hnext Hp Hparen Hflat.
  destruct (flat_returns _ _ _ Hflat) as [fuel0 H].
  exists fuel0. intros fuel Hfuel. unfold getArguments.
  rewrite Hname, Hnext. simpl. unfold token_at. rewrite Hp. simpl.
  apply attr_is_true in Hparen as ->. simpl. by rewrite H.
Qed.

(** X11: every token that [getArguments] returns is a token of the list and
    is no comma, and the tokens returned are those the argument expression
    lists from left to right. *)
Theorem getArguments_returns_leaves fuel tokenlist ftok l :
  getArguments fuel tokenlist ftok = Ok (Some l) →
  Forall (λ i, ∃ t, tokenlist !! i = Some t ∧ Token.str t ≠ Some ",") l
  ∧ ∃ p tp, Token.next ftok = Some p ∧ tokenlist !! p = Some tp
      ∧ flat tokenlist (Token.astOperand2 tp) l.
Proof.
  unfold getArguments.
  destruct (Token.isName ftok); simpl; [|done].
  destruct (Token.next ftok) as [p|]; [|done].
  unfold token_at. destruct (tokenlist !! p) as [tp|] eqn:Ep; [|done]. simpl.
  destruct (attr_is (Token.str tp) "("); simpl; [|done].
  intros (l0 & H & [= ->])%fmap_Ok.
  apply returns_flat in H as (l' & -> & Hflat). simpl.
  split; [by eapply flat_leaves|]. eauto.
Qed.

End flattening.

Lemma getArguments_flattens_sample :
  ∃ fuel0, ∀ fuel, fuel0 ≤ fuel →
    getArguments fuel call3_tokens call3_f = Ok (Some [2; 4; 6]).
Proof.
  apply (getArguments_flattens call3_tokens call3_f 1
           (default call3_f (call3_tokens !! 1)) [2; 4; 6]);
    [reflexivity..|].
  apply (flat_comma call3_tokens 5 (default call3_f (call3_tokens !! 5))
           [2; 4] [6]); [reflexivity|reflexivity| |].
  - apply (flat_comma call3_tokens 3 (default call3_f (call3_tokens !! 3))
             [2] [4]); [reflexivity|reflexivity| |].
    + by apply (flat_leaf call3_tokens 2 (default call3_f (call3_tokens !! 2))).
    + by apply (flat_leaf call3_tokens 4 (default call3_f (call3_tokens !! 4))).
  - by apply (flat_leaf call3_tokens 6 (default call3_f (call3_tokens !! 6))).
Defined.

Lemma getArguments_returns_leaves_sample :
  Forall (λ i, ∃ t, call3_tokens !! i = Some t ∧ Token.str t ≠ Some ",")
         [2; 4; 6].
Proof.
  assert (H : getArguments 3 call3_tokens call3_f = Ok (Some [2; 4; 6]))
    by (vm_compute; reflexivity).
  exact (proj1 (getArguments_returns_leaves 3 call3_tokens call3_f _ H)).
Defined.

(** ** simpleMatch *)

Section simple_match.
Implicit Types (tl : list Token.t).

Lemma split_spaces_cons s : ∃ p ps, split_spaces s = p :: ps.
Proof.
  induction s as [|c r [p [ps IH]]]; simpl; [eauto|].
  destruct (Ascii.eqb c " "); [eauto|]. rewrite IH. eauto.
Qed.

Lemma simpleMatch_pieces_linked tl i pieces :
  doubly_linked tl →
  ∃ b, simpleMatch_pieces tl (at_position tl i) pieces = Ok b
    ∧ (b = true ↔ (Some <$> pieces) `prefix_of` (Token.str <$> drop i tl)).
Proof.
  intros (Hpos & _). revert i. induction pieces as [|p rest IH]; intros i; simpl.
  - exists true. split; [done|]. split; [intros _; apply prefix_nil|done].
  - unfold at_position. case_decide as Hi.
    + destruct (lookup_lt_is_Some_2 tl i Hi) as [t Ht].
      unfold token_at. rewrite Ht. simpl.
      rewrite (drop_S _ _ _ Ht), fmap_cons.
      destruct (attr_is (Token.str t) p) eqn:Es; simpl.
      * apply attr_is_true in Es. destruct (Hpos _ _ Ht) as [_ Hnext].
        destruct (IH (S i)) as (b & Hb & Hiff). exists b.
        split.
        { rewrite Hnext. unfold at_position in Hb. exact Hb. }
        rewrite Hiff, Es. split; [apply prefix_cons|].
        apply prefix_cons_inv_2.
      * apply attr_is_false in Es. exists false. split; [done|].
        split; [done|]. intros Hpre%prefix_cons_inv_1. congruence.
    + exists false. split; [done|]. split; [done|].
      rewrite drop_ge by lia. simpl. intros [k Hk]. discriminate.
Qed.

(** X12: on a doubly linked token list, [simpleMatch] from a token tells
    whether the pieces of the pattern between single spaces are, one by one,
    the texts of that token and of the tokens that follow it; it is false
    when the list ends before the pattern does, and false from no token at
    all, for the empty pattern too. *)
Theorem simpleMatch_linked tl i pattern :
  doubly_linked tl → i < length tl →
  simpleMatch tl None pattern = Ok false
  ∧ ∃ b, simpleMatch tl (Some i) pattern = Ok b
      ∧ (b = true ↔ (Some <$> split_spaces pattern)
                      `prefix_of` (Token.str <$> drop i tl)).
Proof.
  intros Hdl Hi. unfold simpleMatch. split.
  - by destruct (split_spaces_cons pattern) as (p & ps & ->).
  - destruct (simpleMatch_pieces_linked tl i (split_spaces pattern) Hdl)
      as (b & Hb & Hiff).
    unfold at_position in Hb. rewrite decide_True in Hb by done. eauto.
Qed.

Lemma expr_tokens_doubly_linked : doubly_linked expr_tokens.
Proof.
  apply (yielded_tokens_doubly_linked expr_events expr_yield).
  assert (H : (iterconfigurations expr_events).1 = [expr_yield])
    by (vm_compute; reflexivity).
  rewrite H. by left.
Qed.

Lemma simpleMatch_linked_sample :
  simpleMatch expr_tokens (Some 3) "x = 3" = Ok true
  ∧ simpleMatch expr_tokens None "" = Ok false.
Proof.
  destruct (simpleMatch_linked expr_tokens 3 "x = 3"
              expr_tokens_doubly_linked) as (_ & b & Hb & Hiff);
    [vm_compute; lia|].
  destruct (simpleMatch_linked expr_tokens 3 "" expr_tokens_doubly_linked)
    as (Hnone & _); [vm_compute; lia|].
  split; [|exact Hnone].
  rewrite Hb. f_equal. apply Hiff.
  exists (drop 3 (Token.str <$> drop 3 expr_tokens)). reflexivity.
Defined.

End simple_match.

(** ** getValue *)

Section get_value.

Lemma first_with_intvalue_None vs v :
  first_with_intvalue vs v = None
  ↔ Forall (λ x, py_eq (Value.intvalue x) v = false) vs.
Proof.
  induction vs as [|x vs IH]; simpl; [by split; [constructor|]|].
  destruct (py_eq (Value.intvalue x) v) eqn:E.
  - split; [done|]. intros [? _]%Forall_cons. congruence.
  - rewrite IH, Forall_cons. naive_solver.
Qed.

Lemma first_with_intvalue_Some vs v x :
  first_with_intvalue vs v = Some x
  ↔ ∃ pre post, vs = pre ++ x :: post
      ∧ py_eq (Value.intvalue x) v = true
      ∧ Forall (λ y, py_eq (Value.intvalue y) v = false) pre.
Proof.
  induction vs as [|y vs IH]; simpl.
  - split; [done|]. intros (pre & post & H & _). by destruct pre.
  - destruct (py_eq (Value.intvalue y) v) eqn:E.
    + split.
      * intros [= ->]. exists [], vs. by repeat split.
      * intros ([|z pre] & post & Heq & Hx & Hpre); simplify_eq/=; [done|].
        apply Forall_cons in Hpre as [? _]. congruence.
    + rewrite IH. split.
      * intros (pre & post & -> & Hx & Hpre). exists (y :: pre), post.
        repeat split; [done|]. by constructor.
      * intros ([|z pre] & post & Heq & Hx & Hpre); simplify_eq/=; [congruence|].
        apply Forall_cons in Hpre as [_ Hpre]. eauto.
Qed.

(** X13: for a token whose values are a value list, [getValue(v)] returns the
    first value of the list whose integer payload equals [v], and [None]
    exactly when no value of the list has it; a value whose payload is absent
    or is an empty string equals no integer. *)
Theorem Token_getValue_first valueflow t i vs v :
  Token.values t = Some (RefValues i) →
  values_at valueflow i = Ok vs →
  (Token_getValue valueflow t v = Ok None
   ↔ Forall (λ x, py_eq (Value.intvalue x) v = false) vs)
  ∧ (∀ x, Token_getValue valueflow t v = Ok (Some x)
          ↔ ∃ pre post, vs = pre ++ x :: post
              ∧ py_eq (Value.intvalue x) v = true
              ∧ Forall (λ y, py_eq (Value.intvalue y) v = false) pre)
  ∧ (∀ z, py_eq PyNone (PyInt z) = false ∧ py_eq (PyStr "") (PyInt z) = false).
Proof.
  intros Hv Hvs. unfold Token_getValue. rewrite Hv, Hvs. simpl.
  split; [|split; [|done]].
  - rewrite <- first_with_intvalue_None. split; congruence.
  - intros x. rewrite <- first_with_intvalue_Some. split; congruence.
Qed.

Lemma Token_getValue_first_sample :
  (∃ x, Token_getValue (Configuration.valueflow expr_cfg) expr_three (PyInt 4)
        = Ok (Some x)
        ∧ Value.valueKind x = Some "possible")
  ∧ Token_getValue (Configuration.valueflow expr_cfg) expr_three (PyInt 5)
    = Ok None.
Proof.
  destruct (Token_getValue_first (Configuration.valueflow expr_cfg) expr_three
              0 expr_values (PyInt 4) eq_refl eq_refl) as (_ & Hsome & _).
  destruct (Token_getValue_first (Configuration.valueflow expr_cfg) expr_three
              0 expr_values (PyInt 5) eq_refl eq_refl) as (Hnone & _).
  split.
  - exists (default (Value.mk PyNone None PyNone PyNone PyNone None false)
                    (expr_values !! 1)).
    split; [|reflexivity]. apply Hsome.
    exists (take 1 expr_values), []. repeat split.
    repeat constructor.
  - apply Hnone. repeat constructor.
Defined.

End get_value.

(** ** astIsFloat *)

Section ast_is_float.
Variable cfg : Configuration.t.

Lemma ref_ne_tokens vf a b :
  ref_ne vf (Some (RefToken a)) (Some (RefToken b)) = Ok (negb (bool_decide (a = b))).
Proof.
  simpl. f_equal. f_equal. apply bool_decide_ext. split; congruence.
Qed.

(** The loop over the tokens of a type, when the end token is at or after the
    start token. *)
Lemma type_range_within n : ∀ a b steps,
  doubly_linked (Configuration.tokenlist cfg) → a + n = b → b < length (Configuration.tokenlist cfg) → n < steps →
  type_range_is_float steps cfg (Some (RefToken a)) (Some (RefToken b))
  = Some (Ok (existsb float_word (take (S n) (drop a (Configuration.tokenlist cfg))))).
Proof.
  induction n as [|n IH]; intros a b steps Hdl Hab Hb Hsteps;
    (destruct steps as [|steps]; [lia|]);
    destruct (lookup_lt_is_Some_2 (Configuration.tokenlist cfg) a ltac:(lia)) as [t Ht];
    rewrite (drop_S _ _ _ Ht); cbn [type_range_is_float];
    rewrite ref_ne_tokens.
  - rewrite bool_decide_eq_true_2 by lia. simpl.
    unfold token_at, float_word. rewrite Ht. simpl. by rewrite orb_false_r.
  - rewrite bool_decide_eq_false_2 by lia.
    cbn [negb take existsb]. unfold float_word at 1.
    unfold token_at. rewrite Ht.
    destruct (is_float_word (Token.str t)) eqn:E; [done|].
    pose proof Hdl as (Hpos & _). destruct (Hpos _ _ Ht) as [_ Hnext].
    rewrite Hnext, decide_True by lia. cbn [fmap option_fmap option_map].
    by rewrite (IH (S a) b steps) by (done || lia).
Qed.

(** The loop over the tokens of a type, when the end token is not among the
    tokens from the start token on: the loop walks off the list. *)
Lemma type_range_beyond n : ∀ a b steps,
  doubly_linked (Configuration.tokenlist cfg) → a + n = length (Configuration.tokenlist cfg) → 0 < n → ¬ (a ≤ b < length (Configuration.tokenlist cfg)) →
  n < steps →
  type_range_is_float steps cfg (Some (RefToken a)) (Some (RefToken b))
  = Some (if existsb float_word (drop a (Configuration.tokenlist cfg)) then Ok true
          else Raise AttributeError).
Proof.
  induction n as [|n IH]; intros a b steps Hdl Han Hn Hb Hsteps; [lia|].
  destruct steps as [|steps]; [lia|].
  destruct (lookup_lt_is_Some_2 (Configuration.tokenlist cfg) a ltac:(lia)) as [t Ht].
  rewrite (drop_S _ _ _ Ht). cbn [type_range_is_float].
  rewrite ref_ne_tokens, bool_decide_eq_false_2 by lia.
  cbn [negb existsb]. unfold float_word at 1.
  unfold token_at. rewrite Ht.
  destruct (is_float_word (Token.str t)) eqn:E; [done|]. cbn [orb].
  pose proof Hdl as (Hpos & _). destruct (Hpos _ _ Ht) as [_ Hnext].
  rewrite Hnext. case_decide as Hlast.
  - cbn [fmap option_fmap option_map]. apply IH; (done || lia).
  - rewrite drop_ge by lia. destruct steps as [|steps]; [lia|]. done.
Qed.

(** X14: for a token with a variable, which is neither [.] nor an arithmetic
    operator, [astIsFloat] is true exactly when one of the tokens from the
    start token of the type of the variable to its end token, both included,
    is [float] or [double]; the loop over them ends on a doubly linked token
    list. *)
Theorem astIsFloat_variable fuel steps arguments i t s j v a b :
  doubly_linked (Configuration.tokenlist cfg) →
  (Configuration.tokenlist cfg) !! i = Some t → Token.str t = Some s →
  s ≠ "."%string → occurs_in s "+-*/%" = false →
  Token.variable t = Some (RefVariable j) →
  Configuration.variables cfg !! j = Some v →
  Variable_.typeStartToken v = Some (RefToken a) →
  Variable_.typeEndToken v = Some (RefToken b) →
  a ≤ b < length (Configuration.tokenlist cfg) → b - a < steps →
  astIsFloat (S fuel) steps cfg arguments (Some (RefToken i))
  = Some (Ok (existsb float_word (take (S (b - a)) (drop a (Configuration.tokenlist cfg))))).
Proof.
  intros Hdl Ht Hs Hdot Hop Hvar Hv Hstart Hend Hab Hsteps.
  cbn [astIsFloat ref_truthy]. unfold token_at. rewrite Ht, Hs.
  assert (attr_is (Some s) "." = false) as ->
    by (apply attr_is_false; congruence).
  rewrite Hop, Hvar. cbn [ref_truthy type_range]. rewrite Hv, Hstart, Hend.
  apply type_range_within; (done || lia).
Qed.

(** X15: when the end token of the type of the variable is not at or after
    its start token, the loop of [astIsFloat] walks to the end of the token
    list: the answer is true when a token from the start token on is [float]
    or [double], and otherwise asking the token after the last one for its
    text raises. *)
Theorem astIsFloat_end_before_start fuel steps arguments i t s j v a b :
  doubly_linked (Configuration.tokenlist cfg) →
  (Configuration.tokenlist cfg) !! i = Some t → Token.str t = Some s →
  s ≠ "."%string → occurs_in s "+-*/%" = false →
  Token.variable t = Some (RefVariable j) →
  Configuration.variables cfg !! j = Some v →
  Variable_.typeStartToken v = Some (RefToken a) →
  Variable_.typeEndToken v = Some (RefToken b) →
  b < a < length (Configuration.tokenlist cfg) → length (Configuration.tokenlist cfg) - a < steps →
  astIsFloat (S fuel) steps cfg arguments (Some (RefToken i))
  = Some (if existsb float_word (drop a (Configuration.tokenlist cfg)) then Ok true
          else Raise AttributeError).
Proof.
  intros Hdl Ht Hs Hdot Hop Hvar Hv Hstart Hend Hab Hsteps.
  cbn [astIsFloat ref_truthy]. unfold token_at. rewrite Ht, Hs.
  assert (attr_is (Some s) "." = false) as ->
    by (apply attr_is_false; congruence).
  rewrite Hop, Hvar. cbn [ref_truthy type_range]. rewrite Hv, Hstart, Hend.
  apply (type_range_beyond (length (Configuration.tokenlist cfg) - a)); (done || lia).
Qed.

End ast_is_float.

Lemma astIsFloat_variable_sample :
  astIsFloat 1 1 expr_cfg [] (Some (RefToken 3)) = Some (Ok true).
Proof.
  assert (Hv : ∃ v, Configuration.variables expr_cfg !! 0 = Some v
             ∧ Variable_.typeStartToken v = Some (RefToken 0)
             ∧ Variable_.typeEndToken v = Some (RefToken 0))
    by (eexists; repeat split; vm_compute; reflexivity).
  destruct Hv as (v & Hv & Hs & He).
  assert (Hne : "x"%string ≠ "."%string) by discriminate.
  assert (Hab : 0 ≤ 0 < length (Configuration.tokenlist expr_cfg))
    by (vm_compute; lia).
  exact (astIsFloat_variable expr_cfg 0 1 [] 3 expr_x "x" 0 v 0 0
           expr_tokens_doubly_linked eq_refl eq_refl Hne eq_refl eq_refl
           Hv Hs He Hab (Nat.lt_0_succ 0)).
Defined.

Lemma reversed_cfg_doubly_linked :
  doubly_linked (Configuration.tokenlist reversed_cfg).
Proof.
  apply (yielded_tokens_doubly_linked reversed_events (reversed_cfg, [])).
  assert (H : (iterconfigurations reversed_events).1 = [(reversed_cfg, [])])
    by (vm_compute; reflexivity).
  rewrite H. by left.
Qed.

Lemma astIsFloat_end_before_start_sample :
  astIsFloat 1 10 reversed_cfg [] (Some (RefToken 3))
  = Some (Raise AttributeError).
Proof.
  assert (Hv : ∃ v, Configuration.variables reversed_cfg !! 0 = Some v
             ∧ Variable_.typeStartToken v = Some (RefToken 1)
             ∧ Variable_.typeEndToken v = Some (RefToken 0))
    by (eexists; repeat split; vm_compute; reflexivity).
  destruct Hv as (v & Hv & Hs & He).
  assert (Ht : ∃ t, Configuration.tokenlist reversed_cfg !! 3 = Some t
             ∧ Token.str t = Some "x"%string
             ∧ Token.variable t = Some (RefVariable 0))
    by (eexists; repeat split; vm_compute; reflexivity).
  destruct Ht as (t & Ht & Hstr & Hvar).
  assert (Hne : "x"%string ≠ "."%string) by discriminate.
  assert (Hab : 0 < 1 < length (Configuration.tokenlist reversed_cfg))
    by (vm_compute; lia).
  assert (Hsteps : length (Configuration.tokenlist reversed_cfg) - 1 < 10)
    by (vm_compute; lia).
  exact (astIsFloat_end_before_start reversed_cfg 0 10 [] 3 t "x" 0 v 1 0
           reversed_cfg_doubly_linked Ht Hstr Hne eq_refl Hvar
           Hv Hs He Hab Hsteps).
Defined.

(** ** Suppression.isMatch *)

Section suppressions.
Variable fnmatch : string → string → bool.

(** X16: a suppression read from an element with a [lineNumber] attribute
    keeps the line as text, so it matches no line that is given as anything
    but a string, whatever the file, the message and the error identifier
    are. *)
Theorem Suppression_line_is_text element n file line message errorId :
  get element "lineNumber" = Some n →
  (∀ s, line ≠ PyStr s) →
  Suppression_isMatch fnmatch (Suppression.__init__ element)
    file line message errorId = Ok false.
Proof.
  intros Hn Hline. unfold Suppression_isMatch, Suppression.__init__. simpl.
  rewrite Hn.
  assert (py_eq line (PyStr n) = false) as ->
    by (destruct line; simpl; try done; by destruct (Hline s)).
  by rewrite andb_false_r.
Qed.

End suppressions.

Lemma Suppression_line_is_text_sample :
  Suppression_isMatch String.eqb (Suppression.__init__ line_suppression)
    "a.c" (PyInt 12) "" "e1" = Ok false.
Proof.
  apply (Suppression_line_is_text String.eqb line_suppression "12");
    [reflexivity | discriminate].
Defined.

(** ** The raw tokens of a dump file *)

Section raw_tokens.
Import CppcheckData.

Lemma link_steps_lookup (toks : list Token.t) (k : nat) :
  k < length toks →
  foldl link_step toks (seq 0 k) = imap (raw_linked k) toks.
Proof.
  induction k as [|k IH]; intros Hk.
  - simpl. apply list_eq; intros i. rewrite list_lookup_imap.
    unfold raw_linked. repeat case_decide; try lia. by destruct (toks !! i).
  - rewrite seq_S, foldl_app, IH by lia. simpl. unfold link_step.
    apply list_eq; intros i. rewrite !list_lookup_imap.
    destruct (decide (i = k)) as [->|Hik].
    + rewrite list_lookup_alter_eq, list_lookup_alter_ne by lia.
      rewrite list_lookup_imap.
      destruct (toks !! k) as [t|]; [|done]. simpl. f_equal.
      unfold raw_linked. repeat case_decide; try lia; done.
    + rewrite list_lookup_alter_ne by lia.
      destruct (decide (i = k + 1)) as [->|Hik1].
      * rewrite list_lookup_alter_eq, list_lookup_imap.
        destruct (toks !! (k + 1)) as [t|]; [|done]. simpl. f_equal.
        unfold raw_linked. repeat case_decide; try lia.
        by replace (k + 1 - 1) with k by lia.
      * rewrite list_lookup_alter_ne, list_lookup_imap by lia.
        destruct (toks !! i) as [t|]; [|done]. simpl. f_equal.
        unfold raw_linked. repeat case_decide; try lia; done.
Qed.

Lemma raw_linked_links k i t :
  Token.previous (raw_linked k i t)
  = (if decide (0 < i ≤ k) then Some (i - 1) else Token.previous t)
  ∧ Token.next (raw_linked k i t)
    = (if decide (i < k) then Some (i + 1) else Token.next t).
Proof. unfold raw_linked. by repeat case_decide. Qed.

(** The loop of [__init__] makes one doubly linked list of a list with open
    ends. *)
Lemma link_rawTokens_doubly_linked (toks : list Token.t) :
  open_ends toks →
  doubly_linked (foldl link_step toks (seq 0 (length toks - 1))).
Proof.
  intros [Hhead Hlast].
  destruct (decide (toks = [])) as [->|Hne].
  { simpl. apply (link_tokens_doubly_linked []). done. }
  assert (0 < length toks) as Hlen by (destruct toks; [done|simpl; lia]).
  apply (doubly_linked_ext (Configuration.link_tokens toks));
    [|by apply link_tokens_doubly_linked].
  rewrite link_tokens_imap, link_steps_lookup by lia.
  apply Forall2_same_length_lookup_2; [by rewrite !length_imap|].
  intros i x y. rewrite !list_lookup_imap.
  destruct (toks !! i) as [t|] eqn:Ht; [|done]. intros [= <-] [= <-].
  pose proof (lookup_lt_Some _ _ _ Ht) as Hi.
  destruct (raw_linked_links (length toks - 1) i t) as [-> ->].
  assert (Hl : i = length toks - 1 → Token.next t = None).
  { intros ->. apply Hlast. rewrite last_lookup.
    by replace (pred (length toks)) with (length toks - 1) by lia. }
  assert (Hh : i = 0 → Token.previous t = None).
  { intros ->. apply Hhead. by rewrite head_lookup. }
  unfold linked.
  destruct i as [|i]; repeat case_decide; try lia; simpl;
    rewrite ?Nat.add_1_r, ?Nat.sub_0_r; split;
    try done; try (by apply Hh); try (by apply Hl; lia).
Qed.

Lemma open_ends_snoc (toks : list Token.t) (t : Token.t) :
  open_ends toks → detached t → open_ends (toks ++ [t]).
Proof.
  intros [Hhead Hlast] [Hp Hn]. split; intros u Hu.
  - destruct toks as [|t0 toks]; simpl in Hu; [by injection Hu as <-|].
    by apply Hhead.
  - rewrite last_snoc in Hu. by injection Hu as <-.
Qed.

Lemma read_rawtokens_open_ends nodes fs c :
  open_ends (rawTokens c) →
  open_ends (rawTokens (read_rawtokens nodes fs c).1).
Proof.
  revert fs c. induction nodes as [|node nodes IH]; intros fs c Hc; [done|].
  simpl. repeat case_match; try by apply IH.
  unfold bind, lift.
  destruct (Token.__init__ node) as [tok|e] eqn:Etok; [|done].
  destruct (int (get node "fileIndex")) as [ix|e]; [|done].
  destruct (list_getitem fs ix) as [f|e]; [|done].
  simpl. apply IH. simpl. apply open_ends_snoc; [done|].
  destruct (Token_init_unlinked _ _ Etok) as [Hp Hn].
  split; by destruct tok.
Qed.

Lemma read_suppressions_rawTokens nodes c :
  rawTokens (read_suppressions nodes c).1 = rawTokens c.
Proof.
  revert c. induction nodes as [|node nodes IH]; intros c; [done|].
  simpl. unfold bind, append_suppression. simpl. by rewrite IH.
Qed.

Lemma scan_open_ends events l c :
  open_ends (rawTokens c) → open_ends (rawTokens (scan events l c).1).
Proof.
  revert l c. induction events as [|[event node] events IH]; intros l c Hc;
    [done|].
  simpl. repeat case_match; try (by apply IH); try done.
  - unfold bind, lift. destruct (Platform.__init__ node); [by apply IH|done].
  - unfold bind.
    pose proof (read_rawtokens_open_ends (children node) (files l) c Hc)
      as Hr.
    destruct (read_rawtokens (children node) (files l) c) as [c' [fs|e]];
      [by apply IH|done].
  - unfold bind.
    pose proof (read_suppressions_rawTokens (children node) c) as Hr.
    destruct (read_suppressions (children node) c) as [c' [[]|e]]; simpl in Hr.
    + apply IH. by rewrite Hr.
    + simpl. by rewrite Hr.
Qed.

(** X17: a construction that succeeds leaves the raw tokens of the class one
    doubly linked list in the order of the list, when they were one before;
    they are one in particular after the first construction. *)
Theorem rawTokens_doubly_linked filename events c0 c d :
  doubly_linked (rawTokens c0) →
  __init__ filename events c0 = (c, Ok d) →
  doubly_linked (rawTokens c).
Proof.
  intros Hdl. unfold __init__, bind.
  assert (open_ends (rawTokens c0)) as Hopen.
  { destruct Hdl as (_ & _ & _ & Hh & Hl). by split. }
  pose proof (scan_open_ends events locals_init c0 Hopen) as H.
  destruct (scan events locals_init c0) as [c1 [l|e]]; [|done].
  simpl in H. unfold link_rawTokens, ret. intros [= <- _]. simpl.
  by apply link_rawTokens_doubly_linked.
Qed.

Lemma scan_all_done events l c :
  all_done l = true → scan events l c = (c, Ok l).
Proof.
  unfold all_done. intros H. destruct events as [|[event node] events]; [done|].
  simpl. by rewrite H.
Qed.

Lemma scan_stops events rest : ∀ l c c' l',
  scan events l c = (c', Ok l') → all_done l' = true →
  scan (events ++ rest) l c = (c', Ok l').
Proof.
  induction events as [|[event node] events IH]; intros l c c' l' Hscan Hdone.
  - injection Hscan as <- <-. by apply scan_all_done.
  - revert Hscan. simpl.
    repeat case_match; try done; try (by intros Hscan; apply IH).
    + unfold bind, lift. destruct (Platform.__init__ node); [|done].
      intros Hscan. by apply IH.
    + unfold bind.
      destruct (read_rawtokens (children node) (files l) c) as [c1 [fs|e]];
        [|done].
      intros Hscan. by apply IH.
    + unfold bind.
      destruct (read_suppressions (children node) c) as [c1 [[]|e]]; [|done].
      intros Hscan. by apply IH.
Qed.

(** X18: once the platform, the raw tokens and the suppressions have been
    read, [__init__] reads no more of the file: whatever follows, a second
    [rawtokens] or [suppressions] element or an ill-formed [platform], the
    construction ends the same. *)
Theorem init_stops_reading filename events rest c c' l :
  scan events locals_init c = (c', Ok l) → all_done l = true →
  __init__ filename (events ++ rest) c = __init__ filename events c.
Proof.
  intros Hscan Hdone. unfold __init__, bind.
  by rewrite (scan_stops events rest _ _ _ _ Hscan Hdone), Hscan.
Qed.

Lemma read_files pre : ∀ rest fs c,
  Forall (λ node, tag node = "file"%string) pre →
  read_rawtokens (pre ++ rest) fs c
  = read_rawtokens rest (fs ++ file_names pre) c.
Proof.
  induction pre as [|node pre IH]; intros rest fs c Hpre.
  - by rewrite app_nil_r.
  - apply Forall_cons in Hpre as [Htag Hpre]. simpl. rewrite Htag. simpl.
    rewrite IH by done. unfold file_names. by rewrite <- app_assoc.
Qed.

(** X19: the file of a raw token is looked up among the [file] elements that
    come before the token in the [rawtokens] element: an index that only a
    later [file] element would serve raises [IndexError], and the token is
    not appended. *)
Theorem rawtoken_file_not_yet_listed pre node rest tok ix c :
  Forall (λ n, tag n = "file"%string) pre →
  tag node = "tok"%string →
  Token.__init__ node = Ok tok →
  int (get node "fileIndex") = Ok ix →
  (Z.of_nat (length pre) ≤ ix)%Z →
  read_rawtokens (pre ++ node :: rest) [] c = (c, Raise IndexError).
Proof.
  intros Hpre Htag Htok Hix Hge. rewrite read_files by done. simpl.
  rewrite Htag. simpl. unfold bind, lift. rewrite Htok, Hix.
  unfold list_getitem, file_names. rewrite length_fmap.
  destruct (ix <? 0)%Z eqn:E; [lia|]. rewrite E.
  rewrite lookup_ge_None_2; [done|]. rewrite length_fmap. lia.
Qed.

(** X20: a raw token whose index is in the range of the [file] elements
    before it is appended to the raw tokens of the class with the name of the
    file element in that position; a negative index counts from the last
    file element before the token. *)
Theorem rawtoken_file_by_position pre node tok ix name c :
  Forall (λ n, tag n = "file"%string) pre →
  tag node = "tok"%string →
  Token.__init__ node = Ok tok →
  int (get node "fileIndex") = Ok ix →
  file_names pre
    !! Z.to_nat (if (ix <? 0)%Z then ix + Z.of_nat (length pre) else ix)%Z
  = Some name →
  (- Z.of_nat (length pre) ≤ ix)%Z →
  read_rawtokens (pre ++ [node]) [] c
  = (mkClass (rawTokens c ++ [Token.set_file name tok]) (suppressions c),
     Ok (file_names pre)).
Proof.
  intros Hpre Htag Htok Hix Hname Hge.
  assert (Hget : list_getitem (file_names pre) ix = Ok name).
  { unfold list_getitem.
    assert (length (file_names pre) = length pre) as -> by apply length_fmap.
    destruct (ix <? 0)%Z eqn:E; rewrite ?E in Hname; simpl.
    - assert ((ix + Z.of_nat (length pre) <? 0)%Z = false) as -> by lia.
      by rewrite Hname.
    - rewrite ?E. by rewrite Hname. }
  rewrite read_files by done. simpl.
  rewrite Htag. simpl. unfold bind, lift. by rewrite Htok, Hix, Hget.
Qed.

End raw_tokens.

Lemma rawTokens_doubly_linked_sample :
  doubly_linked
    (CppcheckData.rawTokens
       (CppcheckData.__init__ "f" raw_document CppcheckData.class_init).1)
  ∧ length (CppcheckData.rawTokens
       (CppcheckData.__init__ "f" raw_document CppcheckData.class_init).1) = 3.
Proof.
  split; [|vm_compute; reflexivity].
  eapply (rawTokens_doubly_linked "f" raw_document CppcheckData.class_init).
  - apply (link_tokens_doubly_linked []). done.
  - vm_compute. reflexivity.
Defined.

Lemma init_stops_reading_sample :
  CppcheckData.__init__ "f"
    (raw_document ++ [(ev_end, elem "rawtokens" [] raw_children);
                      (ev_start, elem "platform" [] [])])
    CppcheckData.class_init
  = CppcheckData.__init__ "f" raw_document CppcheckData.class_init.
Proof.
  eapply (init_stops_reading "f" raw_document).
  - vm_compute. reflexivity.
  - vm_compute. reflexivity.
Defined.

Lemma rawtoken_file_not_yet_listed_sample :
  CppcheckData.read_rawtokens
    ([raw_file "a.c"] ++ raw_tok "1" "x" :: [raw_file "a.h"]) []
    CppcheckData.class_init
  = (CppcheckData.class_init, Raise IndexError).
Proof.
  eapply (rawtoken_file_not_yet_listed [raw_file "a.c"] (raw_tok "1" "x")
            [raw_file "a.h"] _ 1%Z).
  - repeat constructor.
  - reflexivity.
  - vm_compute. reflexivity.
  - vm_compute. reflexivity.
  - simpl. lia.
Defined.

Lemma rawtoken_file_by_position_sample :
  ∃ tok, Token.__init__ (raw_tok "-1" ";") = Ok tok
    ∧ CppcheckData.read_rawtokens
        ([raw_file "a.c"; raw_file "a.h"] ++ [raw_tok "-1" ";"]) []
        CppcheckData.class_init
      = (CppcheckData.mkClass [Token.set_file (Some "a.h"%string) tok] [],
         Ok [Some "a.c"%string; Some "a.h"%string]).
Proof.
  assert (Htok : ∃ tok, Token.__init__ (raw_tok "-1" ";") = Ok tok)
    by (eexists; vm_compute; reflexivity).
  destruct Htok as [tok Htok]. exists tok. split; [exact Htok|].
  apply (rawtoken_file_by_position [raw_file "a.c"; raw_file "a.h"]
           (raw_tok "-1" ";") tok (-1)%Z (Some "a.h"%string)
           CppcheckData.class_init).
  - repeat constructor.
  - reflexivity.
  - exact Htok.
  - vm_compute. reflexivity.
  - vm_compute. reflexivity.
  - simpl. lia.
Defined.

(** ** Number literals *)

Section literals.

Lemma has_float_mark_spec s :
  has_float_mark s = true
  ↔ ∃ m, m ∈ list_ascii_of_string s
      ∧ (m = "f"%char ∨ m = "."%char ∨ m = "E"%char).
Proof.
  induction s as [|c r IH]; simpl.
  - split; [done|]. intros (m & Hm & _). by apply elem_of_nil in Hm.
  - rewrite !orb_true_iff, IH, !Ascii.eqb_eq. split.
    + intros [[[->| ->]| ->]|(m & Hm & H)];
        [exists "f"%char|exists "."%char|exists "E"%char|exists m];
        (split; [rewrite elem_of_cons; by auto|by auto]).
    + intros (m & Hm & H). apply elem_of_cons in Hm as [->|Hm];
        [left; tauto|right; eauto].
Qed.

(** X21: for a token without variable, which is neither [.] nor an
    arithmetic operator and whose text starts with an ASCII character,
    [astIsFloat] is true exactly when the text starts with a digit and has
    one of the characters [f], [.] and [E] in it: so a literal that starts
    with the point is no float to it, and a hexadecimal literal with the
    digit [f] is one. *)
Theorem astIsFloat_literal fuel steps cfg arguments i t c r :
  Configuration.tokenlist cfg !! i = Some t →
  Token.str t = Some (String c r) →
  String c r ≠ "."%string → occurs_in (String c r) "+-*/%" = false →
  Token.variable t = None →
  nat_of_ascii c < 128 →
  ∃ b, astIsFloat (S fuel) steps cfg arguments (Some (RefToken i))
       = Some (Ok b)
    ∧ (b = true
       ↔ (48 ≤ nat_of_ascii c ≤ 57)
         ∧ ∃ m, m ∈ list_ascii_of_string (String c r)
             ∧ (m = "f"%char ∨ m = "."%char ∨ m = "E"%char)).
Proof.
  intros Ht Hs Hdot Hop Hvar _.
  exists (literal_is_float (String c r)). split.
  - cbn [astIsFloat ref_truthy]. unfold token_at. rewrite Ht, Hs.
    assert (attr_is (Some (String c r)) "." = false) as ->
      by (apply attr_is_false; congruence).
    by rewrite Hop, Hvar.
  - unfold literal_is_float, isdigit.
    rewrite andb_true_iff, has_float_mark_spec, andb_true_iff.
    rewrite Nat.leb_le, Nat.leb_le. done.
Qed.

End literals.

Lemma astIsFloat_literal_sample :
  astIsFloat 1 0 expr_cfg [] (Some (RefToken 7)) = Some (Ok true).
Proof.
  assert (Ht : ∃ t, Configuration.tokenlist expr_cfg !! 7 = Some t
             ∧ Token.str t = Some "1.5"%string ∧ Token.variable t = None)
    by (eexists; repeat split; vm_compute; reflexivity).
  destruct Ht as (t & Ht & Hs & Hvar).
  assert (Hne : "1.5"%string ≠ "."%string) by discriminate.
  assert (Hc : nat_of_ascii "1" < 128) by (vm_compute; lia).
  destruct (astIsFloat_literal 0 0 expr_cfg [] 7 t "1" ".5"
              Ht Hs Hne eq_refl Hvar Hc) as (b & -> & Hb).
  do 2 f_equal. apply Hb. split; [vm_compute; lia|].
  exists "."%char. split; [|by auto].
  simpl. rewrite !elem_of_cons. auto.
Defined.
